(** * Psix scoring core ([psix/model_functions.py]) in Rocq

    A shallow embedding of the capture-noise probability model, the
    per-observation score, the neighbourhood smoother, the exon-level
    driver [psix_score] and the turbo lookup path.

    Numbers.  A NumPy [float64] is modelled by an extended real: a finite
    value carries a real number and arithmetic on finite values is exact
    (no rounding, no overflow, no signed zero); the three special values
    [+inf], [-inf] and [nan] follow the IEEE rules that NumPy applies.
    Integers are [Z]; [.astype(int)] stores the smallest 64-bit integer for
    what does not fit.  Exceptions are [None] in the [option] monad.

    Where rounding decides, as for the symmetry of the capture-noise model,
    the model is embedded a second time over IEEE binary64 numbers (module
    [Binary64], on Rocq's primitive floats). *)

From Stdlib Require Import Reals Lra Lia ZArith List Bool Permutation.
From Stdlib Require Floats.PrimFloat Floats.SpecFloat Floats.FloatOps.
From Stdlib Require Floats.FloatAxioms.
Import ListNotations.

Set Implicit Arguments.

(** ** The exception monad *)

Definition bind {A B : Type} (m : option A) (k : A -> option B) : option B :=
  match m with
  | Some a => k a
  | None => None
  end.

Notation "x <- m ;; k" := (bind m (fun x => k))
  (at level 61, m at next level, right associativity).

Fixpoint mapM {A B : Type} (f : A -> option B) (l : list A) : option (list B) :=
  match l with
  | [] => Some []
  | a :: l' => b <- f a ;; bs <- mapM f l' ;; Some (b :: bs)
  end.

(** ** NumPy numbers *)

Module NumPy.

Open Scope R_scope.

Inductive float64 : Type :=
| Fin (x : R)
| PInf
| NInf
| NaN.

Definition Rltb (x y : R) : bool := if Rlt_dec x y then true else false.
Definition Rleb (x y : R) : bool := if Rle_dec x y then true else false.
Definition Reqb (x y : R) : bool := if Req_EM_T x y then true else false.

Definition of_int (z : Z) : float64 := Fin (IZR z).

(** [np.isnan] *)
Definition isnan (a : float64) : bool :=
  match a with NaN => true | _ => false end.


Definition fneg (a : float64) : float64 :=
  match a with
  | Fin x => Fin (- x)
  | PInf => NInf
  | NInf => PInf
  | NaN => NaN
  end.

Definition fadd (a b : float64) : float64 :=
  match a, b with
  | NaN, _ | _, NaN => NaN
  | Fin x, Fin y => Fin (x + y)
  | PInf, NInf | NInf, PInf => NaN
  | PInf, _ | _, PInf => PInf
  | NInf, _ | _, NInf => NInf
  end.

Definition fsub (a b : float64) : float64 := fadd a (fneg b).

(** The infinity of the sign of [x] times [s]; [nan] when [x] is zero. *)
Definition inf_times (pos : bool) (x : R) : float64 :=
  if Reqb x 0 then NaN
  else if Bool.eqb pos (Rltb 0 x) then PInf else NInf.

Definition fmul (a b : float64) : float64 :=
  match a, b with
  | NaN, _ | _, NaN => NaN
  | Fin x, Fin y => Fin (x * y)
  | Fin x, PInf | PInf, Fin x => inf_times true x
  | Fin x, NInf | NInf, Fin x => inf_times false x
  | PInf, PInf | NInf, NInf => PInf
  | PInf, NInf | NInf, PInf => NInf
  end.

(** Division of NumPy scalars: a zero divisor gives an infinity or [nan],
    it does not raise. *)
Definition fdiv (a b : float64) : float64 :=
  match a, b with
  | NaN, _ | _, NaN => NaN
  | Fin x, Fin y =>
      if Reqb y 0 then
        if Reqb x 0 then NaN else if Rltb 0 x then PInf else NInf
      else Fin (x / y)
  | Fin _, (PInf | NInf) => Fin 0
  | (PInf | NInf), (PInf | NInf) => NaN
  | PInf, Fin y => if Rltb y 0 then NInf else PInf
  | NInf, Fin y => if Rltb y 0 then PInf else NInf
  end.

(** Comparisons: every comparison with [nan] is false. *)
Definition flt (a b : float64) : bool :=
  match a, b with
  | NaN, _ | _, NaN => false
  | Fin x, Fin y => Rltb x y
  | _, NInf => false
  | NInf, _ => true
  | PInf, _ => false
  | Fin _, PInf => true
  end.

Definition fle (a b : float64) : bool :=
  match a, b with
  | NaN, _ | _, NaN => false
  | Fin x, Fin y => Rleb x y
  | NInf, _ => true
  | _, PInf => true
  | _, NInf => false
  | PInf, _ => false
  end.

Definition fgt (a b : float64) : bool := flt b a.
Definition fge (a b : float64) : bool := fle b a.

(** [x ** n] for an integer exponent. *)
Definition fpow (a : float64) (n : Z) : float64 :=
  match a with
  | Fin x =>
      if (0 <=? n)%Z then Fin (x ^ Z.to_nat n)
      else if Reqb x 0 then PInf
      else Fin (/ (x ^ Z.to_nat (- n)))
  | PInf =>
      if (n =? 0)%Z then Fin 1 else if (0 <? n)%Z then PInf else Fin 0
  | NInf =>
      if (n =? 0)%Z then Fin 1
      else if (0 <? n)%Z then (if Z.even n then PInf else NInf)
      else Fin 0
  | NaN => if (n =? 0)%Z then Fin 1 else NaN
  end.

(** [np.log] *)
Definition flog (a : float64) : float64 :=
  match a with
  | Fin x => if Rltb 0 x then Fin (ln x) else if Reqb x 0 then NInf else NaN
  | PInf => PInf
  | NInf => NaN
  | NaN => NaN
  end.

(** [np.max([a, b])]: a [nan] entry makes the maximum [nan]. *)
Definition np_max2 (a b : float64) : float64 :=
  if isnan a || isnan b then NaN
  else if flt a b then b else a.

(** [np.sum], also of a Python list of floats *)
Definition np_sum (l : list float64) : float64 :=
  fold_left fadd l (Fin 0).

(** [np.nanmean]: the mean of the entries that are not [nan] *)
Definition np_nanmean (l : list float64) : float64 :=
  let kept := filter (fun x => negb (isnan x)) l in
  fdiv (np_sum kept) (Fin (INR (length kept))).

(** Truncation toward zero and rounding half to even, on the reals. *)
Definition Rtrunc (x : R) : Z :=
  if Rltb x 0 then (- Int_part (- x))%Z else Int_part x.

Definition Rround_half_even (x : R) : Z :=
  let f := Int_part x in
  let d := x - IZR f in
  if Rltb d (1 / 2) then f
  else if Rltb (1 / 2) d then (f + 1)%Z
  else if Z.even f then f else (f + 1)%Z.

(** [np.round] keeps the float type. *)
Definition np_round (a : float64) : float64 :=
  match a with
  | Fin x => of_int (Rround_half_even x)
  | _ => a
  end.

(** [np.int] is Python's [int]: truncation, [ValueError] on [nan],
    [OverflowError] on an infinity. *)
Definition np_int (a : float64) : option Z :=
  match a with
  | Fin x => Some (Rtrunc x)
  | _ => None
  end.

(** [.astype(int)] does not raise; on [nan], on the infinities and on a
    value whose truncation does not fit 64 bits NumPy stores the smallest
    64-bit integer. *)
Definition int64_min : Z := (- 2 ^ 63)%Z.

Definition int64_max : Z := (2 ^ 63 - 1)%Z.

Definition astype_int (a : float64) : Z :=
  match a with
  | Fin x =>
      let z := Rtrunc x in
      if (int64_min <=? z)%Z && (z <=? int64_max)%Z then z else int64_min
  | _ => int64_min
  end.

(** [np.arange(a, b)] on integers *)
Definition arange (a b : Z) : list Z :=
  map (fun k => (a + Z.of_nat k)%Z) (seq 0 (Z.to_nat (b - a))).

(** Indexing a sequence with a Python integer: a negative index counts
    from the end, an index out of range raises [IndexError]. *)
Definition py_index {A : Type} (l : list A) (i : Z) : option A :=
  let n := Z.of_nat (length l) in
  if (0 <=? i)%Z then nth_error l (Z.to_nat i)
  else if (- n <=? i)%Z then nth_error l (Z.to_nat (n + i))
  else None.

End NumPy.

Import NumPy.

Fixpoint foldM {A S : Type} (f : S -> A -> option S) (l : list A) (s : S)
  : option S :=
  match l with
  | [] => Some s
  | a :: l' => s' <- f s a ;; foldM f l' s'
  end.

(** ** The program *)

(** A turbo table for one molecule count: a matrix of probabilities, rows
    indexed by the observed ratio and columns by the reference ratio. *)
Definition table : Type := list (list float64).

(** The neighbour graph [cell_metric]: component 0 holds, for each cell, the
    indices of its neighbours, component 1 the parallel weights. *)
Definition metric : Type := (list (list Z) * list (list float64))%type.

Section Model.

(** [scipy.special.binom], the continuous (gamma function) extension of the
    binomial coefficient, is a library function outside the repository. *)
Variable binom : float64 -> float64 -> float64.

(** The global NumPy random generator: [np.random.seed] replaces its state,
    [sklearn.utils.shuffle] draws a permutation from it and advances it. *)
Variable rng_state : Type.
Variable np_random_seed : Z -> rng_state.
Variable shuffle : rng_state -> list Z -> list Z * rng_state.

(** [scipy.special.comb(N, k)] with its default [exact=False]: the value of
    [binom(N, k)] where [k <= N], [N >= 0] and [k >= 0] all hold, and [0]
    elsewhere (so also where an argument is [nan]). *)
Definition comb (N k : float64) : float64 :=
  if fle k N && fge N (Fin 0) && fge k (Fin 0) then binom N k else Fin 0.

(** *** The capture-noise model *)

Definition probability_psi_m_unknown
  (observed_psi true_psi capture_efficiency : float64) (captured_mrna : Z)
  : option float64 :=
  stop <- np_int (fdiv (of_int (10 * captured_mrna)) capture_efficiency) ;;
  let m_array := arange captured_mrna stop in
  let comb_1 := map (fun m => comb (fmul (of_int m) true_psi)
                                   (fmul (of_int captured_mrna) observed_psi))
                    m_array in
  let comb_2 := map (fun m => comb (fmul (of_int m) (fsub (Fin 1) true_psi))
                                   (fmul (of_int captured_mrna)
                                         (fsub (Fin 1) observed_psi)))
                    m_array in
  let proba_1 := fpow capture_efficiency (captured_mrna + 1) in
  let proba_2 := map (fun m => fpow (fsub (Fin 1) capture_efficiency)
                                    (m - captured_mrna))
                     m_array in
  let prob_array :=
    map (fun '(c1, c2, p2) => fmul (fmul (fmul c1 c2) proba_1) p2)
        (combine (combine comb_1 comb_2) proba_2) in
  Some (np_sum prob_array).

Definition probability_psi_m_known
  (observed_psi true_psi : float64) (captured_mrna : Z)
  (cell_molecules : float64) : float64 :=
  let comb_1 := comb (fmul cell_molecules true_psi)
                     (fmul (of_int captured_mrna) observed_psi) in
  let comb_2 := comb (fmul cell_molecules (fsub (Fin 1) true_psi))
                     (fmul (of_int captured_mrna)
                           (fsub (Fin 1) observed_psi)) in
  let comb_3 := fpow (comb cell_molecules (of_int captured_mrna)) (-1) in
  fmul (fmul comb_1 comb_2) comb_3.

Definition probability_psi_observation
  (observed_psi true_psi capture_efficiency : float64) (captured_mrna : Z)
  : option float64 :=
  let cell_molecules := fdiv (of_int captured_mrna) capture_efficiency in
  if flt (fmul cell_molecules true_psi)
         (fmul (of_int captured_mrna) observed_psi)
     || flt (fmul cell_molecules (fsub (Fin 1) true_psi))
            (fmul (of_int captured_mrna) (fsub (Fin 1) observed_psi))
  then probability_psi_m_unknown observed_psi true_psi capture_efficiency
                                 captured_mrna
  else Some (probability_psi_m_known observed_psi true_psi captured_mrna
                                     cell_molecules).

(** *** The score of one observation *)

Definition psi_observation_score
  (observed_psi neighborhood_psi global_psi : float64) (captured_mrna : Z)
  (capture_efficiency min_probability : float64) : option float64 :=
  if isnan observed_psi then Some (Fin 0)
  else
    p_n <- probability_psi_observation observed_psi neighborhood_psi
                                       capture_efficiency captured_mrna ;;
    let probability_given_neighborhood := np_max2 min_probability p_n in
    p_g <- probability_psi_observation observed_psi global_psi
                                       capture_efficiency captured_mrna ;;
    let probability_given_global := np_max2 min_probability p_g in
    let log_probability_neighborhood := flog probability_given_neighborhood in
    let log_probability_global := flog probability_given_global in
    let any_nan := false in
    let any_nan :=
      if isnan log_probability_neighborhood then true else any_nan in
    let any_nan := if isnan log_probability_global then true else any_nan in
    let any_nan :=
      if isnan (fsub log_probability_neighborhood log_probability_global)
      then true else any_nan in
    if any_nan then Some (Fin 0)
    else Some (fsub log_probability_neighborhood log_probability_global).

(** The list comprehension clamping the neighbourhood estimates. *)
Definition clamp_psi (x : float64) : float64 :=
  if fgt x (Fin (99 / 100)) then Fin (99 / 100)
  else if flt x (Fin (1 / 100)) then Fin (1 / 100)
  else x.

(** [np.vectorize(func)(range(n))] calls [func] on every index in turn and
    raises on an empty range.  It takes the type of its output array from
    the first result; the scores are modelled as floats throughout. *)
Definition psi_observations_scores_vec
  (observed_psi_array neighborhood_psi_array : list float64)
  (global_psi : float64) (mrna_array : list Z)
  (capture_efficiency min_probability : float64) : option (list float64) :=
  let neighborhood_psi_array := map clamp_psi neighborhood_psi_array in
  let func := fun i : nat =>
    o <- nth_error observed_psi_array i ;;
    a <- nth_error neighborhood_psi_array i ;;
    m <- nth_error mrna_array i ;;
    psi_observation_score o a global_psi m capture_efficiency min_probability in
  let x := seq 0 (length observed_psi_array) in
  match x with
  | [] => None
  | _ => mapM func x
  end.

(** *** The neighbourhood smoother *)

(** One round of the inner loop over the neighbour positions [j]. *)
Definition neighbor_step
  (observed_psi_array : list float64) (neighbors : list Z)
  (weights : list float64) (acc : float64 * float64) (j : nat)
  : option (float64 * float64) :=
  let '(psi_sum, weight_sum) := acc in
  n_j <- nth_error neighbors j ;;
  psi_n <- py_index observed_psi_array n_j ;;
  if negb (isnan psi_n) then
    w_j <- nth_error weights j ;;
    Some (fadd psi_sum (fmul psi_n w_j), fadd weight_sum w_j)
  else Some acc.

(** One round of the outer loop over the cells [i]. *)
Definition cell_step
  (observed_psi_array mrna_obs_array : list float64) (cell_metric : metric)
  (acc : list float64 * list float64 * list float64) (i : nat)
  : option (list float64 * list float64 * list float64) :=
  let '(psi_o_array, psi_a_array, mrna_array) := acc in
  psi_o <- nth_error observed_psi_array i ;;
  if negb (isnan psi_o) then
    mrna_i <- nth_error mrna_obs_array i ;;
    neighbors <- nth_error (fst cell_metric) i ;;
    weights <- nth_error (snd cell_metric) i ;;
    sums <- foldM (neighbor_step observed_psi_array neighbors weights)
                  (seq 1 (length neighbors - 1)) (Fin 0, Fin 0) ;;
    let '(psi_sum, weight_sum) := sums in
    let psi_a :=
      if fgt weight_sum (Fin 0) then fdiv psi_sum weight_sum else NaN in
    Some (psi_o_array ++ [psi_o], psi_a_array ++ [psi_a],
          mrna_array ++ [mrna_i])
  else Some acc.

(** The collapse of a raw molecule estimate in (0.1, 1] to 1. *)
Definition collapse_mrna (x : float64) : float64 :=
  if fgt x (Fin (1 / 10)) && fle x (Fin 1) then Fin 1 else x.

Definition get_arrays
  (observed_psi_array mrna_obs_array : list float64) (cell_metric : metric)
  : option (list float64 * list float64 * list float64) :=
  arrays <- foldM (cell_step observed_psi_array mrna_obs_array cell_metric)
                  (seq 0 (length observed_psi_array)) ([], [], []) ;;
  let '(psi_o_array, psi_a_array, mrna_array) := arrays in
  let mrna_array := map collapse_mrna mrna_array in
  Some (psi_o_array, psi_a_array, mrna_array).

(** *** The turbo lookup *)

Definition psix_turbo (psi_o psi_a : float64) (mrna : Z)
  (turbo_dict : list table) : option float64 :=
  psi_o_idx <- np_int (np_round (fmul psi_o (of_int 100))) ;;
  a_idx <- np_int (np_round (fmul psi_a (of_int 100))) ;;
  let psi_a_idx := (a_idx - 1)%Z in
  let mrna_idx := (mrna - 1)%Z in
  let psi_a_idx :=
    if (psi_a_idx <? 0)%Z then 0%Z
    else if (98 <? psi_a_idx)%Z then 98%Z
    else psi_a_idx in
  tbl <- py_index turbo_dict mrna_idx ;;
  row <- py_index tbl psi_o_idx ;;
  py_index row psi_a_idx.

Definition L_score_turbo (psi_o psi_a psi_n : float64) (mrna : Z)
  (turbo_dict : list table) : option float64 :=
  p_a <- psix_turbo psi_o psi_a mrna turbo_dict ;;
  let L_a := flog p_a in
  p_null <- psix_turbo psi_o psi_n mrna turbo_dict ;;
  let L_null := flog p_null in
  Some (fsub L_a L_null).

Definition psi_observations_scores_vec_turbo
  (observed_psi_array neighborhood_psi_array : list float64)
  (global_psi : float64) (mrna_array : list Z) (turbo_dict : list table)
  : option (list float64) :=
  foldM (fun L_vec i =>
           psi_o <- nth_error observed_psi_array i ;;
           psi_a <- nth_error neighborhood_psi_array i ;;
           mrna <- nth_error mrna_array i ;;
           L <- L_score_turbo psi_o psi_a global_psi mrna turbo_dict ;;
           Some (L_vec ++ [L]))
        (seq 0 (length observed_psi_array)) [].

(** *** The exon-level driver *)

(** Truth value of the [turbo] argument: [False] (here [None]) and an empty
    sequence of tables are false. *)
Definition truthy (turbo : option (list table)) : bool :=
  match turbo with
  | Some (_ :: _) => true
  | _ => false
  end.

Definition tables (turbo : option (list table)) : list table :=
  match turbo with
  | Some t => t
  | None => []
  end.

(** [arr[idx]] with a list of integers [idx] *)
Definition fancy_index {A : Type} (arr : list A) (idx : list Z)
  : option (list A) :=
  mapM (py_index arr) idx.

Definition range (n : nat) : list Z := map Z.of_nat (seq 0 n).

Definition psix_score
  (exon_psi_array exon_mrna_array : list float64) (cell_metric : metric)
  (capture_efficiency : float64) (randomize : bool)
  (min_probability : float64) (seed : Z) (turbo : option (list table))
  (rng : rng_state) : option float64 * rng_state :=
  let ncells := length exon_psi_array in
  let '(inputs, rng) :=
    if randomize then
      let rng := np_random_seed seed in
      let '(shuffled_cells, rng) := shuffle rng (range ncells) in
      (psi <- fancy_index exon_psi_array shuffled_cells ;;
       mrna <- fancy_index exon_mrna_array shuffled_cells ;;
       Some (psi, mrna), rng)
    else (Some (exon_psi_array, exon_mrna_array), rng) in
  (inputs <- inputs ;;
   let '(exon_psi_array, exon_mrna_array) := inputs in
   arrays <- get_arrays exon_psi_array exon_mrna_array cell_metric ;;
   let '(observed_psi_array, neighborhood_psi_array, mrna_array) := arrays in
   let mrna_array := map (fun x => astype_int (np_round x)) mrna_array in
   let total_cells :=
     (Z.of_nat (length observed_psi_array)
      - Z.of_nat (length (filter (Z.eqb 0) mrna_array)))%Z in
   if (total_cells <=? 0)%Z then Some NaN
   else
     let global_psi := np_nanmean observed_psi_array in
     L_vec <-
       (if truthy turbo then
          let mrna_max := Z.of_nat (length (tables turbo)) in
          let mrna_array :=
            map (fun x => if (mrna_max <=? x)%Z then mrna_max else x)
                mrna_array in
          psi_observations_scores_vec_turbo
            observed_psi_array neighborhood_psi_array global_psi mrna_array
            (tables turbo)
        else
          psi_observations_scores_vec
            observed_psi_array neighborhood_psi_array global_psi mrna_array
            capture_efficiency min_probability) ;;
     Some (fdiv (np_sum L_vec) (of_int total_cells)),
   rng).

End Model.

(** ** The specification, in the terms of the program *)

Section Specification.

Variable binom : float64 -> float64 -> float64.
Variable rng_state : Type.
Variable np_random_seed : Z -> rng_state.
Variable shuffle : rng_state -> list Z -> list Z * rng_state.

(** The summand of the unknown-m regime for a candidate molecule count [m]:
    C(m t, r o) C(m (1 - t), r (1 - o)) c^(r+1) (1 - c)^(m - r). *)
Definition unknown_m_term (o t c : float64) (r m : Z) : float64 :=
  fmul (fmul (fmul (comb binom (fmul (of_int m) t) (fmul (of_int r) o))
                   (comb binom (fmul (of_int m) (fsub (Fin 1) t))
                         (fmul (of_int r) (fsub (Fin 1) o))))
             (fpow c (r + 1)))
       (fpow (fsub (Fin 1) c) (m - r)).

(** The closed form of the known-m regime:
    C(M t, r o) C(M (1 - t), r (1 - o)) / C(M, r). *)
Definition known_m_closed_form (o t : float64) (r : Z) (M : float64)
  : float64 :=
  fdiv (fmul (comb binom (fmul M t) (fmul (of_int r) o))
             (comb binom (fmul M (fsub (Fin 1) t))
                   (fmul (of_int r) (fsub (Fin 1) o))))
       (comb binom M (of_int r)).

(** The test that selects the unknown-m regime. *)
Definition m_unknown_condition (o t c : float64) (r : Z) : bool :=
  let M := fdiv (of_int r) c in
  flt (fmul M t) (fmul (of_int r) o)
  || flt (fmul M (fsub (Fin 1) t)) (fmul (of_int r) (fsub (Fin 1) o)).

(** The score written as the specification has it: both probabilities
    floored at [min_probability], the difference of their logarithms, and 0
    in place of a [nan]. *)
Definition floored_log_ratio (min_probability p_n p_g : float64) : float64 :=
  let p_ref := np_max2 min_probability p_n in
  let p_global := np_max2 min_probability p_g in
  let d := fsub (flog p_ref) (flog p_global) in
  if isnan (flog p_ref) || isnan (flog p_global) || isnan d
  then Fin 0 else d.

(** The observation of the cell a neighbour index points to. *)
Definition observation (psi : list float64) (n : Z) : float64 :=
  match py_index psi n with
  | Some x => x
  | None => NaN
  end.

(** The (observation, weight) pairs that enter the weighted average of a
    cell: the neighbours at list positions 1 onward whose own observation is
    not [nan]. *)
Definition contributions (psi : list float64) (neighbors : list Z)
  (weights : list float64) : list (float64 * float64) :=
  filter (fun pw => negb (isnan (fst pw)))
         (combine (map (observation psi) (tl neighbors)) (tl weights)).

(** The weighted average over the contributing neighbours, normalised by
    the sum of their weights; [nan] when that sum is not positive. *)
Definition neighborhood_estimate (psi : list float64) (neighbors : list Z)
  (weights : list float64) : float64 :=
  let used := contributions psi neighbors weights in
  let psi_sum := np_sum (map (fun pw => fmul (fst pw) (snd pw)) used) in
  let weight_sum := np_sum (map snd used) in
  if fgt weight_sum (Fin 0) then fdiv psi_sum weight_sum else NaN.

(** The cells that are kept: those with a defined observation, in order. *)
Definition cell_defined (psi : list float64) (i : nat) : bool :=
  negb (isnan (nth i psi NaN)).

Definition scored_cells (psi : list float64) : list nat :=
  filter (cell_defined psi) (seq 0 (length psi)).

Definition cell_estimate (psi : list float64) (cell_metric : metric)
  (i : nat) : float64 :=
  neighborhood_estimate psi (nth i (fst cell_metric) [])
                        (nth i (snd cell_metric) []).

(** A graph is well formed for [n] cells when every cell has a neighbour
    list and a weight list, every neighbour index is a valid index of the
    observation array, and no weight list is shorter than its neighbour
    list; the molecule column has an entry per cell. *)
Definition index_ok (n : nat) (i : Z) : bool :=
  (- Z.of_nat n <=? i)%Z && (i <? Z.of_nat n)%Z.

Definition well_formed (psi mrna : list float64) (cell_metric : metric)
  : bool :=
  (length psi <=? length mrna)%nat
  && (length psi <=? length (fst cell_metric))%nat
  && (length psi <=? length (snd cell_metric))%nat
  && forallb (fun i =>
                forallb (index_ok (length psi)) (nth i (fst cell_metric) [])
                && (length (nth i (fst cell_metric) [])
                    <=? length (nth i (snd cell_metric) []))%nat)
             (seq 0 (length psi)).

(** Three parallel arrays read at one index. *)
Definition zip3 {A B C : Type} (o : list A) (a : list B) (r : list C)
  : list (A * B * C) :=
  combine (combine o a) r.

(** A raw molecule estimate rounded to an integer count. *)
Definition round_mrna (x : float64) : Z := astype_int (np_round x).

(** The cap applied to the counts when a turbo table is in use. *)
Definition cap_mrna (mrna_max x : Z) : Z :=
  if (mrna_max <=? x)%Z then mrna_max else x.

(** The number of cells with a defined observation, and how many of them
    have a collapsed and rounded molecule count of 0. *)
Definition defined_count (psi : list float64) : nat :=
  length (filter (fun x => negb (isnan x)) psi).

Definition zero_molecule_count (psi mrna : list float64) : nat :=
  length (filter (fun i => (0 =? round_mrna (collapse_mrna (nth i mrna NaN)))%Z)
                 (scored_cells psi)).

Definition total_scored_cells (psi mrna : list float64) : Z :=
  (Z.of_nat (defined_count psi) - Z.of_nat (zero_molecule_count psi mrna))%Z.

(** The per-cell scores of the filtered cells, on either path. *)
Definition per_cell_scores (o a : list float64) (r : list Z)
  (capture_efficiency min_probability : float64)
  (turbo : option (list table)) : option (list float64) :=
  let global_psi := np_nanmean o in
  if truthy turbo then
    psi_observations_scores_vec_turbo
      o a global_psi
      (map (cap_mrna (Z.of_nat (length (tables turbo)))) r) (tables turbo)
  else
    psi_observations_scores_vec binom o a global_psi r
                                capture_efficiency min_probability.

(** The arrays the smoother receives: the inputs, reindexed by the
    permutation drawn from the generator seeded with [seed] when
    [randomize] is set. *)
Definition drawn_permutation (seed : Z) (ncells : nat) : list Z :=
  fst (shuffle (np_random_seed seed) (range ncells)).

Definition smoother_inputs (psi mrna : list float64) (randomize : bool)
  (seed : Z) : option (list float64 * list float64) :=
  if randomize then
    let perm := drawn_permutation seed (length psi) in
    psi' <- fancy_index psi perm ;;
    mrna' <- fancy_index mrna perm ;;
    Some (psi', mrna')
  else Some (psi, mrna).

Definition clamp (lo hi x : Z) : Z := Z.max lo (Z.min hi x).

(** [round(100 x)] as an integer index. *)
Definition ratio_bin (x : float64) : option Z :=
  np_int (np_round (fmul (of_int 100) x)).

(** The table entry [T[r - 1][round(100 o), clamp(round(100 x) - 1, 0, 98)]]. *)
Definition turbo_entry (T : list table) (r : Z) (o x : float64)
  : option float64 :=
  i <- ratio_bin o ;;
  j <- ratio_bin x ;;
  tbl <- py_index T (r - 1) ;;
  row <- py_index tbl i ;;
  py_index row (clamp 0 98 (j - 1)).

(** The score contribution of a cell on the turbo path. *)
Definition turbo_cell_score (T : list table) (r : Z) (o a g : float64)
  : option float64 :=
  p_a <- turbo_entry T r o a ;;
  p_g <- turbo_entry T r o g ;;
  Some (fsub (flog p_a) (flog p_g)).

(** The entry [tbl[round(100 o), clamp(round(100 x) - 1, 0, 98)]] of one
    table, and the score read from one table. *)
Definition table_entry (tbl : table) (o x : float64) : option float64 :=
  i <- ratio_bin o ;;
  j <- ratio_bin x ;;
  row <- py_index tbl i ;;
  py_index row (clamp 0 98 (j - 1)).

Definition table_score (tbl : table) (o a g : float64) : option float64 :=
  p_a <- table_entry tbl o a ;;
  p_g <- table_entry tbl o g ;;
  Some (fsub (flog p_a) (flog p_g)).

End Specification.

(** ** Example data *)

(** A table with one row of 99 columns, whose last column differs. *)
Definition example_row : list float64 := repeat (Fin 1) 98 ++ [Fin 2].

(** Two cells observed at 1/2.  Cell 0 has no molecule and no neighbour but
    itself; cell 1 has one molecule and cell 0 as its neighbour. *)
Definition lonely_psi : list float64 := [Fin (1 / 2); Fin (1 / 2)].

Definition lonely_mrna : list float64 := [Fin 0; Fin 1].

Definition lonely_metric : metric :=
  ([[0%Z]; [1%Z; 0%Z]], [[Fin 1]; [Fin 1; Fin 1]]).

(** A stand-in for [binom] that is right at (0, 0), and a generator whose
    shuffle leaves the order unchanged. *)
Definition binom_one : float64 -> float64 -> float64 := fun _ _ => Fin 1.

Definition seed_unit : Z -> unit := fun _ => tt.

Definition shuffle_id : unit -> list Z -> list Z * unit :=
  fun s l => (l, s).

(** ** The permutation that keeps the missing positions *)

Section FixNan.

(** [np.random.permutation] draws from the global generator. *)
Variable rng_state : Type.
Variable np_random_permutation : rng_state -> list Z -> list Z * rng_state.

(** One round of the loop of [permute_array_fix_nan]: the state is the list
    [new_idx] and the counter [j]. *)
Definition fix_nan_step (idx_array : list float64) (idx_permute : list Z)
  (acc : list Z * nat) (i : nat) : option (list Z * nat) :=
  let '(new_idx, j) := acc in
  x <- nth_error idx_array i ;;
  if isnan x then Some (new_idx ++ [Z.of_nat i], j)
  else p <- nth_error idx_permute j ;; Some (new_idx ++ [p], S j).

Definition permute_array_fix_nan (idx_array : list float64)
  (rng : rng_state) : option (list Z) * rng_state :=
  let idx_non_nan :=
    map Z.of_nat
        (filter (fun i => negb (isnan (nth i idx_array NaN)))
                (seq 0 (length idx_array))) in
  let '(idx_permute, rng) := np_random_permutation rng idx_non_nan in
  (res <- foldM (fix_nan_step idx_array idx_permute)
                (seq 0 (length idx_array)) ([], 0%nat) ;;
   Some (fst res),
   rng).

End FixNan.

(** ** Domains of the inputs *)

(** A ratio: a number in [0, 1], or missing. *)
Definition ratio_ok (x : float64) : Prop :=
  match x with
  | Fin v => (0 <= v <= 1)%R
  | NaN => True
  | _ => False
  end.

(** A weight: a non-negative number. *)
Definition weight_ok (w : float64) : Prop :=
  match w with
  | Fin v => (0 <= v)%R
  | _ => False
  end.

(** A model value that is not above 1 ([nan] and [-inf] included). *)
Definition at_most_one (p : float64) : Prop :=
  match p with
  | Fin v => (v <= 1)%R
  | PInf => False
  | _ => True
  end.

(** Every table has at least 101 rows and every row at least 99 columns. *)
Definition table_shape_ok (T : list table) : bool :=
  forallb (fun tbl =>
             (101 <=? length tbl)%nat
             && forallb (fun row => (99 <=? length row)%nat) tbl)
          T.

(** The positions of an array that hold [nan]. *)
Definition nan_positions (arr : list float64) : list nat :=
  filter (fun i => isnan (nth i arr NaN)) (seq 0 (length arr)).

(** A generator whose permutation reverses its argument. *)
Definition permutation_rev : unit -> list Z -> list Z * unit :=
  fun s l => (rev l, s).

(** A table of 101 rows and 99 columns, all entries 1/2. *)
Definition half_table : table := repeat (repeat (Fin (1 / 2)) 99) 101.

(** The entry [permute_array_fix_nan] writes at position [i]: [i] itself
    where the array holds [nan], and otherwise the entry of the drawn
    permutation whose rank is the number of defined positions before [i]. *)
Definition fix_nan_entry (arr : list float64) (perm : list Z) (i : nat) : Z :=
  if isnan (nth i arr NaN) then Z.of_nat i
  else nth (length (filter (cell_defined arr) (seq 0 i))) perm 0%Z.





(** Three cells, the middle one without an observation; the outer two are
    each other's neighbour. *)
Definition gapped_psi : list float64 := [Fin (1 / 2); NaN; Fin (1 / 2)].

Definition gapped_mrna : list float64 := [Fin 1; Fin 0; Fin 1].

Definition gapped_metric : metric :=
  ([[0%Z; 2%Z]; [1%Z]; [2%Z; 0%Z]],
   [[Fin 1; Fin 1]; [Fin 1]; [Fin 1; Fin 1]]).

(** ** The capture-noise model in double precision *)

(** The three functions of the capture-noise model over IEEE binary64
    numbers (Rocq's primitive floats), where [1 - (1 - x)] need not be [x].
    The molecule count is a 64-bit integer, as [psix_score] passes it.
    [np.power] with an integer exponent is computed by repeated
    multiplication and [np.sum] from left to right; NumPy's own [pow] and
    its pairwise summation can differ from these in the last bits.  The
    size limit of [np.arange] is not modelled. *)
Module Binary64.

Import PrimFloat SpecFloat FloatOps.
Local Open Scope float_scope.

(** The value of a 64-bit integer as a float, correctly rounded. *)
Definition of_int (z : Z) : float :=
  SF2Prim (binary_normalize prec emax z 0 false).

(** Arithmetic on [np.int64] wraps around. *)
Definition wrap64 (z : Z) : Z :=
  ((z + 2 ^ 63) mod 2 ^ 64 - 2 ^ 63)%Z.

(** [np.int] is Python's [int]: truncation toward zero, an exception on
    [nan] and on the infinities. *)
Definition np_int (a : float) : option Z :=
  match Prim2SF a with
  | S754_zero _ => Some 0%Z
  | S754_finite s m e =>
      let z := Z.shiftl (Zpos m) e in
      Some (if s then (- z)%Z else z)
  | _ => None
  end.

Fixpoint pow_nat (a : float) (n : nat) : float :=
  match n with
  | O => 1
  | S k => pow_nat a k * a
  end.

Definition fpow (a : float) (n : Z) : float :=
  if (0 <=? n)%Z then pow_nat a (Z.to_nat n)
  else 1 / pow_nat a (Z.to_nat (- n)).

Definition np_sum (l : list float) : float := fold_left add l 0.

Section Model.

(** [scipy.special.binom] *)
Variable binom : float -> float -> float.

Definition comb (N k : float) : float :=
  if (k <=? N) && (0 <=? N) && (0 <=? k) then binom N k else 0.

Definition probability_psi_m_unknown
  (observed_psi true_psi capture_efficiency : float) (captured_mrna : Z)
  : option float :=
  stop <- np_int (of_int (wrap64 (10 * captured_mrna)) / capture_efficiency) ;;
  let m_array := arange captured_mrna stop in
  let comb_1 := map (fun m => comb (of_int m * true_psi)
                                   (of_int captured_mrna * observed_psi))
                    m_array in
  let comb_2 := map (fun m => comb (of_int m * (1 - true_psi))
                                   (of_int captured_mrna
                                    * (1 - observed_psi)))
                    m_array in
  let proba_1 := fpow capture_efficiency (wrap64 (captured_mrna + 1)) in
  let proba_2 := map (fun m => fpow (1 - capture_efficiency)
                                    (m - captured_mrna))
                     m_array in
  let prob_array :=
    map (fun '(c1, c2, p2) => c1 * c2 * proba_1 * p2)
        (combine (combine comb_1 comb_2) proba_2) in
  Some (np_sum prob_array).

Definition probability_psi_m_known
  (observed_psi true_psi : float) (captured_mrna : Z)
  (cell_molecules : float) : float :=
  let comb_1 := comb (cell_molecules * true_psi)
                     (of_int captured_mrna * observed_psi) in
  let comb_2 := comb (cell_molecules * (1 - true_psi))
                     (of_int captured_mrna * (1 - observed_psi)) in
  let comb_3 := fpow (comb cell_molecules (of_int captured_mrna)) (-1) in
  comb_1 * comb_2 * comb_3.

Definition probability_psi_observation
  (observed_psi true_psi capture_efficiency : float) (captured_mrna : Z)
  : option float :=
  let cell_molecules := of_int captured_mrna / capture_efficiency in
  if (cell_molecules * true_psi <? of_int captured_mrna * observed_psi)
     || (cell_molecules * (1 - true_psi)
         <? of_int captured_mrna * (1 - observed_psi))
  then probability_psi_m_unknown observed_psi true_psi capture_efficiency
                                 captured_mrna
  else Some (probability_psi_m_known observed_psi true_psi captured_mrna
                                     cell_molecules).

End Model.

(** The doubles nearest to 1/10 and 7/100, and 1/4. *)
Definition tenth : float := 0x1.999999999999ap-4.
Definition seven_hundredths : float := 0x1.1eb851eb851ecp-4.
Definition quarter : float := 0x1p-2.

(** [scipy.special.binom(n, k)] for [k = 0] and [k = 1], where it uses the
    multiplication formula: 1, and [(1 + n) - 1]. *)
Definition binom_small (n k : float) : float :=
  if k =? 0 then 1 else (1 + n) - 1.

End Binary64.

(** ** Facts about the number model *)

Section NumberFacts.

Open Scope R_scope.

Lemma Rltb_true (x y : R) : x < y -> Rltb x y = true.
Proof.
  intros H. unfold Rltb.
  destruct (Rlt_dec x y); [reflexivity | contradiction].
Qed.

Lemma Rltb_false (x y : R) : y <= x -> Rltb x y = false.
Proof. intros H. unfold Rltb. destruct (Rlt_dec x y); [lra | reflexivity]. Qed.

Lemma Rleb_true (x y : R) : x <= y -> Rleb x y = true.
Proof.
  intros H. unfold Rleb.
  destruct (Rle_dec x y); [reflexivity | contradiction].
Qed.

Lemma Rleb_false (x y : R) : y < x -> Rleb x y = false.
Proof. intros H. unfold Rleb. destruct (Rle_dec x y); [lra | reflexivity]. Qed.

Lemma Reqb_true (x y : R) : x = y -> Reqb x y = true.
Proof.
  intros H. unfold Reqb.
  destruct (Req_EM_T x y); [reflexivity | contradiction].
Qed.

Lemma Reqb_false (x y : R) : x <> y -> Reqb x y = false.
Proof.
  intros H. unfold Reqb.
  destruct (Req_EM_T x y); [contradiction | reflexivity].
Qed.

Lemma fmul_comm (a b : float64) : fmul a b = fmul b a.
Proof.
  destruct a as [x| | |], b as [y| | |]; simpl; try reflexivity.
  f_equal. ring.
Qed.

Lemma fadd_comm (a b : float64) : fadd a b = fadd b a.
Proof.
  destruct a as [x| | |], b as [y| | |]; simpl; try reflexivity.
  f_equal. ring.
Qed.

Lemma fadd_0_r (a : float64) : fadd a (Fin 0) = a.
Proof. destruct a as [x| | |]; simpl; try reflexivity. f_equal. ring. Qed.

Lemma fadd_0_l (a : float64) : fadd (Fin 0) a = a.
Proof. rewrite fadd_comm. apply fadd_0_r. Qed.

(** [1 - (1 - x)] is [x], also at the special values. *)
Lemma fsub_1_involutive (a : float64) : fsub (Fin 1) (fsub (Fin 1) a) = a.
Proof.
  destruct a as [x| | |]; simpl; try reflexivity.
  unfold fsub. simpl. f_equal. ring.
Qed.

(** Multiplying by [y ** (-1)] is dividing by [y]. *)
Lemma fmul_fpow_inv (a b : float64) : fmul a (fpow b (-1)) = fdiv a b.
Proof.
  destruct b as [y| | |]; simpl.
  - change (Z.to_nat 1) with 1%nat. simpl pow.
    unfold Reqb at 1. destruct (Req_EM_T y 0) as [Hy | Hy].
    + destruct a as [x| | |]; simpl; try reflexivity.
      * rewrite (Reqb_true Hy). unfold inf_times.
        destruct (Reqb x 0); [reflexivity|].
        destruct (Rltb 0 x); reflexivity.
      * subst y. rewrite Rltb_false by lra. reflexivity.
      * subst y. rewrite Rltb_false by lra. reflexivity.
    + assert (Hinv : / (y * 1) <> 0).
      { apply Rinv_neq_0_compat. lra. }
      destruct a as [x| | |]; simpl; try reflexivity.
      * rewrite (Reqb_false Hy). f_equal. field. exact Hy.
      * unfold inf_times. rewrite (Reqb_false Hinv).
        destruct (Rlt_dec y 0) as [Hneg | Hpos].
        -- rewrite (Rltb_true Hneg). rewrite Rltb_false; [reflexivity|].
           left. apply Rinv_lt_0_compat. lra.
        -- rewrite (@Rltb_false y 0) by lra.
           rewrite Rltb_true; [reflexivity|].
           apply Rinv_0_lt_compat. lra.
      * unfold inf_times. rewrite (Reqb_false Hinv).
        destruct (Rlt_dec y 0) as [Hneg | Hpos].
        -- rewrite (Rltb_true Hneg). rewrite Rltb_false; [reflexivity|].
           left. apply Rinv_lt_0_compat. lra.
        -- rewrite (@Rltb_false y 0) by lra.
           rewrite Rltb_true; [reflexivity|].
           apply Rinv_0_lt_compat. lra.
  - destruct a as [x| | |]; simpl; try reflexivity.
    + f_equal. ring.
    + unfold inf_times. rewrite Reqb_true; reflexivity.
    + unfold inf_times. rewrite Reqb_true; reflexivity.
  - destruct a as [x| | |]; simpl; try reflexivity.
    + f_equal. ring.
    + unfold inf_times. rewrite Reqb_true; reflexivity.
    + unfold inf_times. rewrite Reqb_true; reflexivity.
  - destruct a as [x| | |]; reflexivity.
Qed.

Lemma Int_part_IZR (z : Z) : Int_part (IZR z) = z.
Proof.
  symmetry. apply Int_part_spec. split; lra.
Qed.

Lemma Rtrunc_IZR (z : Z) : Rtrunc (IZR z) = z.
Proof.
  unfold Rtrunc. destruct (Rltb (IZR z) 0).
  - rewrite <- opp_IZR, Int_part_IZR. lia.
  - apply Int_part_IZR.
Qed.

Lemma Rround_half_even_IZR (z : Z) : Rround_half_even (IZR z) = z.
Proof.
  unfold Rround_half_even. rewrite Int_part_IZR.
  rewrite Rltb_true by lra. reflexivity.
Qed.

Lemma int64_range_small (z : Z) :
  (-1 <= z <= 1)%Z -> (int64_min <= z <= int64_max)%Z.
Proof.
  assert (Hmin : (int64_min < -1)%Z) by reflexivity.
  assert (Hmax : (1 < int64_max)%Z) by reflexivity.
  lia.
Qed.

(** Rounding then converting to an integer type gives the rounded integer
    when it fits 64 bits, and the smallest 64-bit integer when not. *)
Lemma astype_int_np_round_cases (x : R) :
  astype_int (np_round (Fin x))
  = if (int64_min <=? Rround_half_even x)%Z
       && (Rround_half_even x <=? int64_max)%Z
    then Rround_half_even x else int64_min.
Proof.
  unfold np_round, of_int, astype_int. cbv zeta.
  rewrite Rtrunc_IZR. reflexivity.
Qed.

Lemma astype_int_np_round (x : R) :
  (int64_min <= Rround_half_even x <= int64_max)%Z ->
  astype_int (np_round (Fin x)) = Rround_half_even x.
Proof.
  intros [Hlo Hhi]. rewrite astype_int_np_round_cases.
  apply Z.leb_le in Hlo. apply Z.leb_le in Hhi. rewrite Hlo, Hhi.
  reflexivity.
Qed.

Lemma astype_int_np_round_zero (x : R) :
  astype_int (np_round (Fin x)) = 0%Z <-> Rround_half_even x = 0%Z.
Proof.
  rewrite astype_int_np_round_cases. split.
  - destruct ((int64_min <=? Rround_half_even x)%Z
              && (Rround_half_even x <=? int64_max)%Z);
      [intros H; exact H | discriminate].
  - intros ->. reflexivity.
Qed.

Lemma np_int_np_round (x : R) :
  np_int (np_round (Fin x)) = Some (Rround_half_even x).
Proof. simpl. f_equal. apply Rtrunc_IZR. Qed.

(** The range of [np.arange] is half open, and index [-1] is the last
    entry. *)
Example arange_half_open : arange 2 5 = [2; 3; 4]%Z.
Proof. reflexivity. Qed.

Example arange_empty : arange 5 5 = [].
Proof. reflexivity. Qed.

Example py_index_last : py_index [10; 20; 30]%Z (-1) = Some 30%Z.
Proof. reflexivity. Qed.

Example py_index_out_of_range : py_index [10; 20; 30]%Z 3 = None.
Proof. reflexivity. Qed.

End NumberFacts.

(** ** The capture-noise model: branches and symmetry *)

Section CaptureNoise.

Variable binom : float64 -> float64 -> float64.

Lemma map_combine3 {A B C D E : Type} (f : B * C * D -> E)
  (g1 : A -> B) (g2 : A -> C) (g3 : A -> D) (l : list A) :
  map f (combine (combine (map g1 l) (map g2 l)) (map g3 l))
  = map (fun a => f (g1 a, g2 a, g3 a)) l.
Proof.
  induction l as [| a l IH]; simpl; [reflexivity|].
  rewrite IH. reflexivity.
Qed.

Lemma arange_In (a b m : Z) : In m (arange a b) <-> (a <= m < b)%Z.
Proof.
  unfold arange. rewrite in_map_iff. split.
  - intros [k [Hk Hin]]. apply in_seq in Hin. lia.
  - intros H. exists (Z.to_nat (m - a)). split; [lia|].
    apply in_seq. lia.
Qed.

Lemma probability_psi_m_unknown_sum (o t c : float64) (r : Z) :
  probability_psi_m_unknown binom o t c r
  = (stop <- np_int (fdiv (of_int (10 * r)) c) ;;
     Some (np_sum (map (unknown_m_term binom o t c r) (arange r stop)))).
Proof.
  unfold probability_psi_m_unknown.
  destruct (np_int (fdiv (of_int (10 * r)) c)) as [stop|]; simpl;
    [|reflexivity].
  rewrite map_combine3. reflexivity.
Qed.

Lemma probability_psi_m_known_closed (o t : float64) (r : Z) (M : float64) :
  probability_psi_m_known binom o t r M = known_m_closed_form binom o t r M.
Proof.
  unfold probability_psi_m_known, known_m_closed_form.
  apply fmul_fpow_inv.
Qed.

Lemma probability_psi_observation_regimes (o t c : float64) (r : Z) :
  probability_psi_observation binom o t c r
  = if m_unknown_condition o t c r
    then (stop <- np_int (fdiv (of_int (10 * r)) c) ;;
          Some (np_sum (map (unknown_m_term binom o t c r) (arange r stop))))
    else Some (known_m_closed_form binom o t r (fdiv (of_int r) c)).
Proof.
  unfold probability_psi_observation, m_unknown_condition.
  rewrite probability_psi_m_unknown_sum, probability_psi_m_known_closed.
  reflexivity.
Qed.

(** C1.  [probability_psi_observation] computes [cell_molecules = r / c]; when
    [cell_molecules * t < r * o] or [cell_molecules * (1 - t) < r * (1 - o)]
    it returns the sum, over the integers [m] with [r <= m < int(10 r / c)]
    (the half-open range of [np.arange]), of
    C(m t, r o) C(m (1 - t), r (1 - o)) c^(r+1) (1 - c)^(m - r); otherwise it
    returns C(M t, r o) C(M (1 - t), r (1 - o)) / C(M, r) with
    [M = cell_molecules].  The combinatorial function is [comb], which hands
    its arguments, integer or not, to the continuous [binom]. *)
Theorem probability_psi_observation_branches (o t c : float64) (r : Z) :
  let cell_molecules := fdiv (of_int r) c in
  probability_psi_observation binom o t c r
  = (if flt (fmul cell_molecules t) (fmul (of_int r) o)
        || flt (fmul cell_molecules (fsub (Fin 1) t))
               (fmul (of_int r) (fsub (Fin 1) o))
     then
       stop <- np_int (fdiv (fmul (of_int 10) (of_int r)) c) ;;
       Some (np_sum (map (unknown_m_term binom o t c r) (arange r stop)))
     else Some (known_m_closed_form binom o t r cell_molecules))
  /\ (forall stop m : Z, In m (arange r stop) <-> (r <= m < stop)%Z)
  /\ (forall N k : float64,
        comb binom N k
        = if fle k N && fle (Fin 0) N && fle (Fin 0) k
          then binom N k else Fin 0).
Proof.
  intros cell_molecules. split; [|split].
  - rewrite probability_psi_observation_regimes.
    unfold m_unknown_condition. fold cell_molecules.
    replace (fmul (of_int 10) (of_int r)) with (of_int (10 * r)).
    + reflexivity.
    + unfold of_int, fmul. rewrite mult_IZR. reflexivity.
  - intros stop m. apply arange_In.
  - intros N k. reflexivity.
Qed.

(** The regime test is unchanged when [o] and [t] are replaced by [1 - o]
    and [1 - t]: its two comparisons are exchanged. *)
Lemma m_unknown_condition_sym (o t c : float64) (r : Z) :
  m_unknown_condition (fsub (Fin 1) o) (fsub (Fin 1) t) c r
  = m_unknown_condition o t c r.
Proof.
  unfold m_unknown_condition. cbv zeta.
  rewrite !fsub_1_involutive. apply orb_comm.
Qed.

Lemma unknown_m_term_sym (o t c : float64) (r m : Z) :
  unknown_m_term binom (fsub (Fin 1) o) (fsub (Fin 1) t) c r m
  = unknown_m_term binom o t c r m.
Proof.
  unfold unknown_m_term. rewrite !fsub_1_involutive.
  f_equal. f_equal. apply fmul_comm.
Qed.

Lemma known_m_closed_form_sym (o t : float64) (r : Z) (M : float64) :
  known_m_closed_form binom (fsub (Fin 1) o) (fsub (Fin 1) t) r M
  = known_m_closed_form binom o t r M.
Proof.
  unfold known_m_closed_form. rewrite !fsub_1_involutive.
  f_equal. apply fmul_comm.
Qed.

(** In exact arithmetic, where [1 - (1 - x) = x] for every [x], the model
    gives the same value at [(1 - o, 1 - t)] as at [(o, t)], for the same
    [c] and [r]: the regime test, the unknown-m sum and the known-m closed
    form are each invariant under the exchange. *)
Theorem probability_psi_observation_symmetry (o t c : float64) (r : Z) :
  probability_psi_observation binom (fsub (Fin 1) o) (fsub (Fin 1) t) c r
  = probability_psi_observation binom o t c r
  /\ m_unknown_condition (fsub (Fin 1) o) (fsub (Fin 1) t) c r
     = m_unknown_condition o t c r
  /\ probability_psi_m_unknown binom (fsub (Fin 1) o) (fsub (Fin 1) t) c r
     = probability_psi_m_unknown binom o t c r
  /\ (forall M : float64,
        probability_psi_m_known binom (fsub (Fin 1) o) (fsub (Fin 1) t) r M
        = probability_psi_m_known binom o t r M).
Proof.
  assert (Hsum :
    probability_psi_m_unknown binom (fsub (Fin 1) o) (fsub (Fin 1) t) c r
    = probability_psi_m_unknown binom o t c r).
  { rewrite !probability_psi_m_unknown_sum.
    destruct (np_int (fdiv (of_int (10 * r)) c)) as [stop|]; simpl;
      [|reflexivity].
    f_equal. f_equal. apply map_ext. intros m. apply unknown_m_term_sym. }
  assert (Hknown : forall M : float64,
    probability_psi_m_known binom (fsub (Fin 1) o) (fsub (Fin 1) t) r M
    = probability_psi_m_known binom o t r M).
  { intros M. rewrite !probability_psi_m_known_closed.
    apply known_m_closed_form_sym. }
  split; [|split; [|split]].
  - unfold probability_psi_observation.
    change (flt (fmul (fdiv (of_int r) c) (fsub (Fin 1) t))
                (fmul (of_int r) (fsub (Fin 1) o))
            || flt (fmul (fdiv (of_int r) c)
                         (fsub (Fin 1) (fsub (Fin 1) t)))
                   (fmul (of_int r) (fsub (Fin 1) (fsub (Fin 1) o))))
      with (m_unknown_condition (fsub (Fin 1) o) (fsub (Fin 1) t) c r).
    rewrite m_unknown_condition_sym, Hsum, Hknown. reflexivity.
  - apply m_unknown_condition_sym.
  - exact Hsum.
  - exact Hknown.
Qed.

(** *** The score of one observation *)

Lemma floored_log_ratio_not_nan (min_probability p_n p_g : float64) :
  isnan (floored_log_ratio min_probability p_n p_g) = false.
Proof.
  unfold floored_log_ratio. cbv zeta.
  destruct (isnan (flog (np_max2 min_probability p_n))); [reflexivity|].
  destruct (isnan (flog (np_max2 min_probability p_g))); [reflexivity|].
  simpl.
  destruct (isnan (fsub (flog (np_max2 min_probability p_n))
                        (flog (np_max2 min_probability p_g)))) eqn:E;
    [reflexivity | exact E].
Qed.

Lemma psi_observation_score_eq
  (o a g : float64) (r : Z) (c min_probability : float64) :
  psi_observation_score binom o a g r c min_probability
  = if isnan o then Some (Fin 0)
    else
      p_n <- probability_psi_observation binom o a c r ;;
      p_g <- probability_psi_observation binom o g c r ;;
      Some (floored_log_ratio min_probability p_n p_g).
Proof.
  unfold psi_observation_score, floored_log_ratio.
  destruct (isnan o); [reflexivity|].
  destruct (probability_psi_observation binom o a c r) as [p_n|];
    [|reflexivity].
  destruct (probability_psi_observation binom o g c r) as [p_g|];
    [|reflexivity].
  simpl.
  destruct (isnan (flog (np_max2 min_probability p_n)));
    destruct (isnan (flog (np_max2 min_probability p_g)));
    destruct (isnan (fsub (flog (np_max2 min_probability p_n))
                          (flog (np_max2 min_probability p_g))));
    reflexivity.
Qed.

(** C3.  [psi_observation_score] returns 0 when the observed ratio is [nan];
    otherwise it floors both probabilities at [min_probability] and returns
    [log p_ref - log p_global], with 0 in place of the difference when either
    logarithm or the difference is [nan]; the score it returns is never
    [nan]. *)
Theorem psi_observation_score_nan_policy
  (o a g : float64) (r : Z) (c min_probability : float64) :
  psi_observation_score binom o a g r c min_probability
  = (if isnan o then Some (Fin 0)
     else
       p_n <- probability_psi_observation binom o a c r ;;
       p_g <- probability_psi_observation binom o g c r ;;
       let p_ref := np_max2 min_probability p_n in
       let p_global := np_max2 min_probability p_g in
       Some (if isnan (flog p_ref) || isnan (flog p_global)
                || isnan (fsub (flog p_ref) (flog p_global))
             then Fin 0
             else fsub (flog p_ref) (flog p_global)))
  /\ match psi_observation_score binom o a g r c min_probability with
     | Some s => isnan s = false
     | None => True
     end.
Proof.
  split.
  - rewrite psi_observation_score_eq. reflexivity.
  - rewrite psi_observation_score_eq.
    destruct (isnan o); [reflexivity|].
    destruct (probability_psi_observation binom o a c r) as [p_n|];
      [|exact I].
    destruct (probability_psi_observation binom o g c r) as [p_g|];
      [|exact I].
    apply floored_log_ratio_not_nan.
Qed.

End CaptureNoise.

(** ** The neighbourhood smoother *)

Section Smoother.

Lemma skipn_nth_error_cons {A : Type} (l : list A) :
  forall (k : nat) (x : A),
    nth_error l k = Some x -> skipn k l = x :: skipn (S k) l.
Proof.
  induction l as [| y l IH]; intros k x H.
  - destruct k; discriminate.
  - destruct k as [| k].
    + simpl in H. injection H as ->. reflexivity.
    + simpl in H. apply IH in H. exact H.
Qed.

Lemma skipn_nth_error_nil {A : Type} (l : list A) (k : nat) :
  nth_error l k = None -> skipn k l = [] /\ skipn (S k) l = [].
Proof.
  intros H. apply nth_error_None in H.
  split; apply skipn_all2; lia.
Qed.

Lemma observation_py_index (psi : list float64) (n : Z) (x : float64) :
  py_index psi n = Some x -> observation psi n = x.
Proof. intros H. unfold observation. rewrite H. reflexivity. Qed.

(** The inner loop, started at position [k] with any accumulators, adds the
    contributions of the positions from [k] onward. *)
Lemma neighbor_loop_sums (psi : list float64) (neighbors : list Z)
  (weights : list float64) :
  forall (n k : nat) (acc acc' : float64 * float64),
    n = (length neighbors - k)%nat ->
    foldM (neighbor_step psi neighbors weights) (seq k n) acc = Some acc' ->
    let used :=
      filter (fun pw => negb (isnan (fst pw)))
             (combine (map (observation psi) (skipn k neighbors))
                      (skipn k weights)) in
    fst acc' = fold_left fadd (map (fun pw => fmul (fst pw) (snd pw)) used)
                         (fst acc)
    /\ snd acc' = fold_left fadd (map snd used) (snd acc).
Proof.
  induction n as [| n IH]; intros k acc acc' Hn Hrun used; subst used.
  - simpl in Hrun. injection Hrun as <-.
    rewrite (skipn_all2 neighbors) by lia. simpl. split; reflexivity.
  - simpl in Hrun. destruct acc as [psi_sum weight_sum].
    unfold neighbor_step at 1 in Hrun.
    destruct (nth_error neighbors k) as [n_k|] eqn:Hnk.
    2:{ apply nth_error_None in Hnk. lia. }
    simpl in Hrun.
    destruct (py_index psi n_k) as [psi_n|] eqn:Hobs; [|discriminate].
    simpl in Hrun.
    rewrite (skipn_nth_error_cons _ _ Hnk). simpl map.
    rewrite (observation_py_index _ _ Hobs).
    destruct (isnan psi_n) eqn:Hnan; simpl in Hrun.
    + apply IH in Hrun; [|lia].
      destruct (nth_error weights k) as [w_k|] eqn:Hwk.
      * rewrite (skipn_nth_error_cons _ _ Hwk). simpl.
        rewrite Hnan. simpl. exact Hrun.
      * destruct (skipn_nth_error_nil _ _ Hwk) as [E1 E2].
        rewrite E1. rewrite E2 in Hrun.
        rewrite combine_nil in Hrun. simpl in *. exact Hrun.
    + destruct (nth_error weights k) as [w_k|] eqn:Hwk; [|discriminate].
      simpl in Hrun. apply IH in Hrun; [|lia].
      rewrite (skipn_nth_error_cons _ _ Hwk). simpl.
      rewrite Hnan. simpl. exact Hrun.
Qed.

Lemma neighbor_loop_estimate (psi : list float64) (neighbors : list Z)
  (weights : list float64) (psi_sum weight_sum : float64) :
  foldM (neighbor_step psi neighbors weights)
        (seq 1 (length neighbors - 1)) (Fin 0, Fin 0)
  = Some (psi_sum, weight_sum) ->
  (if fgt weight_sum (Fin 0) then fdiv psi_sum weight_sum else NaN)
  = neighborhood_estimate psi neighbors weights.
Proof.
  intros Hrun. apply neighbor_loop_sums in Hrun; [|reflexivity].
  simpl fst in Hrun. simpl snd in Hrun. destruct Hrun as [Hs Hw].
  unfold neighborhood_estimate, contributions, np_sum.
  replace (tl neighbors) with (skipn 1 neighbors)
    by (destruct neighbors; reflexivity).
  replace (tl weights) with (skipn 1 weights)
    by (destruct weights; reflexivity).
  cbv zeta. rewrite <- Hs, <- Hw. reflexivity.
Qed.

(** The outer loop, started at cell [k], appends one entry per kept cell. *)
Lemma cell_loop_appends (psi mrna : list float64) (cell_metric : metric) :
  forall (n k : nat) (acc acc' : list float64 * list float64 * list float64),
    (k + n <= length psi)%nat ->
    foldM (cell_step psi mrna cell_metric) (seq k n) acc = Some acc' ->
    let cells := filter (cell_defined psi) (seq k n) in
    acc' = (fst (fst acc) ++ map (fun i => nth i psi NaN) cells,
            snd (fst acc) ++ map (cell_estimate psi cell_metric) cells,
            snd acc ++ map (fun i => nth i mrna NaN) cells).
Proof.
  induction n as [| n IH]; intros k acc acc' Hk Hrun cells; subst cells.
  - simpl in Hrun. injection Hrun as <-. simpl.
    rewrite !app_nil_r. destruct acc as [[o a] m]. reflexivity.
  - cbn [foldM seq] in Hrun. destruct acc as [[o a] m].
    unfold cell_step at 1 in Hrun.
    destruct (nth_error psi k) as [psi_o|] eqn:Hpsi.
    2:{ apply nth_error_None in Hpsi. lia. }
    cbv beta iota zeta delta [bind] in Hrun.
    assert (Hnth : nth k psi NaN = psi_o) by (apply nth_error_nth; exact Hpsi).
    assert (Hdef : cell_defined psi k = negb (isnan psi_o))
      by (unfold cell_defined; rewrite Hnth; reflexivity).
    change (seq k (S n)) with (k :: seq (S k) n).
    change (filter (cell_defined psi) (k :: seq (S k) n))
      with (if cell_defined psi k
            then k :: filter (cell_defined psi) (seq (S k) n)
            else filter (cell_defined psi) (seq (S k) n)).
    rewrite Hdef.
    destruct (isnan psi_o) eqn:Hnan;
      cbv beta iota delta [negb] in Hrun; simpl negb; cbv iota.
    + apply IH in Hrun; [|lia]. exact Hrun.
    + destruct (nth_error mrna k) as [mrna_k|] eqn:Hm; [|discriminate].
      cbv beta iota zeta delta [bind] in Hrun.
      destruct (nth_error (fst cell_metric) k) as [neighbors|] eqn:Hnb;
        [|discriminate].
      cbv beta iota zeta delta [bind] in Hrun.
      destruct (nth_error (snd cell_metric) k) as [weights|] eqn:Hw;
        [|discriminate].
      cbv beta iota zeta delta [bind] in Hrun.
      destruct (foldM (neighbor_step psi neighbors weights)
                      (seq 1 (length neighbors - 1)) (Fin 0, Fin 0))
        as [[psi_sum weight_sum]|] eqn:Hinner; [|discriminate].
      cbv beta iota zeta delta [bind] in Hrun.
      rewrite (neighbor_loop_estimate _ _ _ Hinner) in Hrun.
      apply IH in Hrun; [|lia]. rewrite Hrun. simpl.
      rewrite <- !app_assoc. simpl.
      unfold cell_estimate at 2.
      rewrite (nth_error_nth _ _ _ Hnb), (nth_error_nth _ _ _ Hw).
      rewrite Hnth, (nth_error_nth _ _ _ Hm). reflexivity.
Qed.

(** What [get_arrays] returns when it returns. *)
Lemma get_arrays_returns (psi mrna : list float64) (cell_metric : metric)
  (o a m : list float64) :
  get_arrays psi mrna cell_metric = Some (o, a, m) ->
  o = map (fun i => nth i psi NaN) (scored_cells psi)
  /\ a = map (cell_estimate psi cell_metric) (scored_cells psi)
  /\ m = map (fun i => collapse_mrna (nth i mrna NaN)) (scored_cells psi).
Proof.
  unfold get_arrays. intros H.
  destruct (foldM (cell_step psi mrna cell_metric) (seq 0 (length psi))
                  ([], [], [])) as [[[o' a'] m']|] eqn:Hloop; [|discriminate].
  simpl in H. injection H as <- <- <-.
  apply cell_loop_appends in Hloop; [|lia]. simpl in Hloop.
  injection Hloop as -> -> ->.
  unfold scored_cells. rewrite map_map. repeat split; reflexivity.
Qed.

Lemma py_index_ok {A : Type} (l : list A) (i : Z) :
  index_ok (length l) i = true -> exists x, py_index l i = Some x.
Proof.
  unfold index_ok, py_index. intros H.
  apply andb_true_iff in H. destruct H as [Hlo Hhi].
  apply Z.leb_le in Hlo. apply Z.ltb_lt in Hhi.
  destruct (0 <=? i)%Z eqn:Hsign.
  - apply Z.leb_le in Hsign.
    destruct (nth_error l (Z.to_nat i)) as [x|] eqn:E; [eauto|].
    apply nth_error_None in E. lia.
  - apply Z.leb_gt in Hsign. cbv zeta.
    replace (- Z.of_nat (length l) <=? i)%Z with true
      by (symmetry; apply Z.leb_le; lia).
    destruct (nth_error l (Z.to_nat (Z.of_nat (length l) + i))) as [x|] eqn:E;
      [eauto|].
    apply nth_error_None in E. lia.
Qed.

(** On a well-formed graph the loops raise no [IndexError]. *)
Lemma neighbor_loop_total (psi : list float64) (neighbors : list Z)
  (weights : list float64) :
  forallb (index_ok (length psi)) neighbors = true ->
  (length neighbors <= length weights)%nat ->
  forall (n k : nat) (acc : float64 * float64),
    (n <= length neighbors - k)%nat ->
    exists acc',
      foldM (neighbor_step psi neighbors weights) (seq k n) acc = Some acc'.
Proof.
  intros Hidx Hlen. rewrite forallb_forall in Hidx.
  induction n as [| n IH]; intros k acc Hk.
  - simpl. eauto.
  - simpl. destruct acc as [psi_sum weight_sum].
    unfold neighbor_step at 1.
    destruct (nth_error neighbors k) as [n_k|] eqn:Hnk.
    2:{ apply nth_error_None in Hnk. lia. }
    simpl.
    destruct (py_index_ok psi n_k) as [psi_n Hobs].
    { apply Hidx. eapply nth_error_In. exact Hnk. }
    rewrite Hobs. simpl.
    destruct (isnan psi_n); simpl.
    + apply IH. lia.
    + destruct (nth_error weights k) as [w_k|] eqn:Hwk.
      2:{ apply nth_error_None in Hwk. lia. }
      simpl. apply IH. lia.
Qed.

Lemma cell_loop_total (psi mrna : list float64) (cell_metric : metric) :
  well_formed psi mrna cell_metric = true ->
  forall (n k : nat) (acc : list float64 * list float64 * list float64),
    (k + n <= length psi)%nat ->
    exists acc',
      foldM (cell_step psi mrna cell_metric) (seq k n) acc = Some acc'.
Proof.
  unfold well_formed. intros Hwf.
  apply andb_true_iff in Hwf. destruct Hwf as [Hwf Hcells].
  apply andb_true_iff in Hwf. destruct Hwf as [Hwf Hlw].
  apply andb_true_iff in Hwf. destruct Hwf as [Hlm Hln].
  apply Nat.leb_le in Hlm, Hln, Hlw.
  rewrite forallb_forall in Hcells.
  induction n as [| n IH]; intros k acc Hk.
  - simpl. eauto.
  - simpl. destruct acc as [[o a] m].
    unfold cell_step at 1.
    destruct (nth_error psi k) as [psi_o|] eqn:Hpsi.
    2:{ apply nth_error_None in Hpsi. lia. }
    simpl. destruct (isnan psi_o); simpl.
    + apply IH. lia.
    + destruct (nth_error mrna k) as [mrna_k|] eqn:Hm.
      2:{ apply nth_error_None in Hm. lia. }
      simpl.
      destruct (nth_error (fst cell_metric) k) as [neighbors|] eqn:Hnb.
      2:{ apply nth_error_None in Hnb. lia. }
      simpl.
      destruct (nth_error (snd cell_metric) k) as [weights|] eqn:Hw.
      2:{ apply nth_error_None in Hw. lia. }
      simpl.
      assert (Hcell := Hcells k).
      rewrite (nth_error_nth _ _ _ Hnb), (nth_error_nth _ _ _ Hw) in Hcell.
      assert (Hin : In k (seq 0 (length psi))) by (apply in_seq; lia).
      apply Hcell in Hin. apply andb_true_iff in Hin.
      destruct Hin as [Hidx Hlen]. apply Nat.leb_le in Hlen.
      destruct (@neighbor_loop_total psi neighbors weights Hidx Hlen
                  (length neighbors - 1)%nat 1%nat (Fin 0, Fin 0))
        as [[s w] Hinner].
      { lia. }
      rewrite Hinner. simpl. apply IH. lia.
Qed.

Lemma get_arrays_well_formed (psi mrna : list float64)
  (cell_metric : metric) :
  well_formed psi mrna cell_metric = true ->
  get_arrays psi mrna cell_metric
  = Some (map (fun i => nth i psi NaN) (scored_cells psi),
          map (cell_estimate psi cell_metric) (scored_cells psi),
          map (fun i => collapse_mrna (nth i mrna NaN)) (scored_cells psi)).
Proof.
  intros Hwf.
  destruct (cell_loop_total psi mrna cell_metric Hwf (length psi) 0
              ([], [], [])) as [[[o a] m] Hloop]; [lia|].
  assert (H : get_arrays psi mrna cell_metric
              = Some (o, a, map collapse_mrna m)).
  { unfold get_arrays. rewrite Hloop. reflexivity. }
  rewrite H. apply get_arrays_returns in H.
  destruct H as [-> [-> ->]]. reflexivity.
Qed.

Lemma fgt_0_0 : fgt (Fin 0) (Fin 0) = false.
Proof. unfold fgt. simpl. apply Rltb_false. lra. Qed.

(** C4.  On a well-formed graph [get_arrays] keeps exactly the cells with a
    defined observation, each paired with its own observed value; the
    neighbourhood estimate of a kept cell is the weighted average of the
    observations of its neighbours at list positions 1 onward (position 0 is
    left out), skipping the neighbours whose observation is [nan], divided by
    the sum of the weights of those that contributed; when no neighbour
    contributes, or the contributing weights sum to 0, the estimate is [nan]
    and the cell is still kept. *)
Theorem get_arrays_neighborhood_estimate (psi mrna : list float64)
  (cell_metric : metric) :
  well_formed psi mrna cell_metric = true ->
  get_arrays psi mrna cell_metric
  = Some (map (fun i => nth i psi NaN) (scored_cells psi),
          map (fun i =>
                 neighborhood_estimate psi (nth i (fst cell_metric) [])
                                       (nth i (snd cell_metric) []))
              (scored_cells psi),
          map (fun i => collapse_mrna (nth i mrna NaN)) (scored_cells psi))
  /\ (forall i : nat,
        In i (scored_cells psi)
        <-> (i < length psi)%nat /\ isnan (nth i psi NaN) = false)
  /\ (forall (neighbors : list Z) (weights : list float64),
        let used :=
          filter (fun pw => negb (isnan (fst pw)))
                 (combine (map (observation psi) (tl neighbors))
                          (tl weights)) in
        neighborhood_estimate psi neighbors weights
        = (if fgt (np_sum (map snd used)) (Fin 0)
           then fdiv (np_sum (map (fun pw => fmul (fst pw) (snd pw)) used))
                     (np_sum (map snd used))
           else NaN)
        /\ (used = [] -> neighborhood_estimate psi neighbors weights = NaN)
        /\ (np_sum (map snd used) = Fin 0 ->
            neighborhood_estimate psi neighbors weights = NaN)).
Proof.
  intros Hwf. split; [|split].
  - apply get_arrays_well_formed. exact Hwf.
  - intros i. unfold scored_cells. rewrite filter_In, in_seq.
    unfold cell_defined. rewrite negb_true_iff. split.
    + intros [H1 H2]. split; [lia | exact H2].
    + intros [H1 H2]. split; [lia | exact H2].
  - intros neighbors weights used. split; [reflexivity|]. split.
    + intros Hnil. unfold neighborhood_estimate, contributions.
      fold used. rewrite Hnil. cbv zeta. cbn [map]. unfold np_sum.
      cbn [fold_left]. rewrite fgt_0_0. reflexivity.
    + intros Hzero. unfold neighborhood_estimate, contributions.
      fold used. cbv zeta. rewrite Hzero, fgt_0_0. reflexivity.
Qed.

End Smoother.

(** ** Loops over indices as maps over the arrays *)

Section IndexLoops.

Lemma bind_assoc {A B C : Type} (m : option A) (f : A -> option B)
  (g : B -> option C) :
  (b <- (a <- m ;; f a) ;; g b) = (a <- m ;; b <- f a ;; g b).
Proof. destruct m; reflexivity. Qed.

Lemma foldM_ext {A S : Type} (f g : S -> A -> option S) (l : list A) :
  (forall s a, f s a = g s a) -> forall s, foldM f l s = foldM g l s.
Proof.
  intros H. induction l as [| a l IH]; intros s; simpl; [reflexivity|].
  rewrite H. destruct (g s a); simpl; [apply IH | reflexivity].
Qed.

Lemma mapM_ext {A B : Type} (f g : A -> option B) (l : list A) :
  (forall a, f a = g a) -> mapM f l = mapM g l.
Proof.
  intros H. induction l as [| a l IH]; simpl; [reflexivity|].
  rewrite H, IH. reflexivity.
Qed.

Lemma mapM_length {A B : Type} (f : A -> option B) (l : list A)
  (bs : list B) : mapM f l = Some bs -> length bs = length l.
Proof.
  revert bs. induction l as [| a l IH]; intros bs H; simpl in H.
  - injection H as <-. reflexivity.
  - destruct (f a) as [b|]; [|discriminate]. simpl in H.
    destruct (mapM f l) as [bs'|]; [|discriminate]. simpl in H.
    injection H as <-. simpl. f_equal. apply IH. reflexivity.
Qed.

(** A loop that appends one result per index is a [mapM]. *)
Lemma foldM_append {A B : Type} (h : A -> option B) (l : list A) :
  forall acc : list B,
    foldM (fun acc a => b <- h a ;; Some (acc ++ [b])) l acc
    = (bs <- mapM h l ;; Some (acc ++ bs)).
Proof.
  induction l as [| a l IH]; intros acc; simpl.
  - rewrite app_nil_r. reflexivity.
  - destruct (h a) as [b|]; simpl; [|reflexivity].
    rewrite IH. destruct (mapM h l) as [bs|]; simpl; [|reflexivity].
    rewrite <- app_assoc. reflexivity.
Qed.

(** Reading an array at every index in turn is traversing the array. *)
Lemma mapM_nth_error_from {A B : Type} (g : A -> option B) (l : list A) :
  forall pre : list A,
    mapM (fun i => x <- nth_error (pre ++ l) i ;; g x)
         (seq (length pre) (length l))
    = mapM g l.
Proof.
  induction l as [| x l IH]; intros pre; simpl; [reflexivity|].
  rewrite nth_error_app2 by lia. rewrite Nat.sub_diag. simpl.
  destruct (g x) as [b|]; simpl; [|reflexivity].
  specialize (IH (pre ++ [x])).
  rewrite <- app_assoc in IH. simpl in IH.
  rewrite length_app in IH. simpl in IH.
  rewrite Nat.add_1_r in IH. rewrite IH. reflexivity.
Qed.

Lemma mapM_nth_error {A B : Type} (g : A -> option B) (l : list A) :
  mapM (fun i => x <- nth_error l i ;; g x) (seq 0 (length l)) = mapM g l.
Proof. apply (mapM_nth_error_from g l []). Qed.

Lemma zip3_length {A B C : Type} (o : list A) (a : list B) (r : list C) :
  length o = length a -> length a = length r ->
  length (zip3 o a r) = length o.
Proof.
  intros H1 H2. unfold zip3. rewrite !length_combine. lia.
Qed.

Lemma nth_error_zip3 {A B C D : Type} (F : A -> B -> C -> option D) :
  forall (o : list A) (a : list B) (r : list C) (i : nat),
    length o = length a -> length a = length r ->
    (x <- nth_error o i ;; y <- nth_error a i ;; z <- nth_error r i ;;
     F x y z)
    = (t <- nth_error (zip3 o a r) i ;; F (fst (fst t)) (snd (fst t)) (snd t)).
Proof.
  induction o as [| x o IH]; intros a r i H1 H2.
  - destruct a; [|discriminate]. destruct r; [|discriminate].
    destruct i; reflexivity.
  - destruct a as [| y a]; [discriminate|].
    destruct r as [| z r]; [discriminate|].
    destruct i as [| i]; [reflexivity|].
    simpl. apply IH; simpl in *; lia.
Qed.

(** Filtering the indices of a list by a test on the entry and reading the
    entries back is filtering the list. *)
Lemma map_nth_filter_seq {A : Type} (p : A -> bool) (d : A) (l : list A) :
  forall k : nat,
    map (fun i => nth (i - k) l d)
        (filter (fun i => p (nth (i - k) l d)) (seq k (length l)))
    = filter p l.
Proof.
  induction l as [| x l IH]; intros k; [reflexivity|].
  assert (Hshift :
    map (fun i => nth (i - k) (x :: l) d)
        (filter (fun i => p (nth (i - k) (x :: l) d)) (seq (S k) (length l)))
    = filter p l).
  { rewrite <- (IH (S k)).
    rewrite (filter_ext_in (fun i => p (nth (i - k) (x :: l) d))
                           (fun i => p (nth (i - S k) l d))).
    - apply map_ext_in. intros i Hi. apply filter_In in Hi.
      destruct Hi as [Hi _]. apply in_seq in Hi.
      replace (i - k)%nat with (S (i - S k)) by lia. reflexivity.
    - intros i Hi. apply in_seq in Hi.
      replace (i - k)%nat with (S (i - S k)) by lia. reflexivity. }
  cbn [length seq filter]. rewrite Nat.sub_diag. cbn [nth].
  destruct (p x); cbn [map]; rewrite ?Nat.sub_diag; cbn [nth].
  - f_equal. exact Hshift.
  - exact Hshift.
Qed.

Lemma scored_cells_observations (psi : list float64) :
  map (fun i => nth i psi NaN) (scored_cells psi)
  = filter (fun x => negb (isnan x)) psi.
Proof.
  unfold scored_cells, cell_defined.
  rewrite <- (map_nth_filter_seq (fun x => negb (isnan x)) NaN psi 0).
  rewrite (filter_ext (fun i => negb (isnan (nth i psi NaN)))
                      (fun i => negb (isnan (nth (i - 0) psi NaN)))).
  - apply map_ext. intros i. rewrite Nat.sub_0_r. reflexivity.
  - intros i. rewrite Nat.sub_0_r. reflexivity.
Qed.

Lemma filter_map_length {A B : Type} (p : B -> bool) (f : A -> B)
  (l : list A) :
  length (filter p (map f l)) = length (filter (fun a => p (f a)) l).
Proof.
  induction l as [| a l IH]; simpl; [reflexivity|].
  destruct (p (f a)); simpl; rewrite IH; reflexivity.
Qed.

End IndexLoops.

(** ** The exon-level driver *)

Section Driver.

Variable binom : float64 -> float64 -> float64.
Variable rng_state : Type.
Variable np_random_seed : Z -> rng_state.
Variable shuffle : rng_state -> list Z -> list Z * rng_state.

Lemma get_arrays_lengths (psi mrna : list float64) (cell_metric : metric)
  (o a m : list float64) :
  get_arrays psi mrna cell_metric = Some (o, a, m) ->
  length a = length o /\ length m = length o.
Proof.
  intros H. apply get_arrays_returns in H. destruct H as [-> [-> ->]].
  rewrite !length_map. split; reflexivity.
Qed.

Lemma get_arrays_total_cells (psi mrna : list float64) (cell_metric : metric)
  (o a m : list float64) :
  get_arrays psi mrna cell_metric = Some (o, a, m) ->
  (Z.of_nat (length o)
   - Z.of_nat (length (filter (Z.eqb 0)
                              (map (fun x => astype_int (np_round x)) m))))%Z
  = total_scored_cells psi mrna.
Proof.
  intros H. apply get_arrays_returns in H. destruct H as [Ho [_ Hm]].
  unfold total_scored_cells, defined_count, zero_molecule_count.
  rewrite <- scored_cells_observations, <- Ho.
  rewrite Hm, map_map, filter_map_length. reflexivity.
Qed.

(** [psix_score] without the state of the generator: the permutation, then
    the smoother, the count of scored cells, the scores and their mean. *)
Lemma psix_score_value
  (psi mrna : list float64) (cell_metric : metric) (c : float64)
  (randomize : bool) (min_probability : float64) (seed : Z)
  (turbo : option (list table)) (rng : rng_state) :
  fst (psix_score binom np_random_seed shuffle psi mrna cell_metric c
                  randomize min_probability seed turbo rng)
  = (inputs <- smoother_inputs np_random_seed shuffle psi mrna randomize seed ;;
     arrays <- get_arrays (fst inputs) (snd inputs) cell_metric ;;
     let total := total_scored_cells (fst inputs) (snd inputs) in
     if (total <=? 0)%Z then Some NaN
     else
       L_vec <- per_cell_scores binom (fst (fst arrays)) (snd (fst arrays))
                                (map round_mrna (snd arrays))
                                c min_probability turbo ;;
       Some (fdiv (np_sum L_vec) (of_int total))).
Proof.
  unfold psix_score, smoother_inputs, drawn_permutation.
  destruct randomize.
  - destruct (shuffle (np_random_seed seed) (range (length psi)))
      as [perm rng'] eqn:Hperm.
    cbn [fst snd].
    destruct (fancy_index psi perm) as [psi'|]; [|reflexivity].
    cbn [bind].
    destruct (fancy_index mrna perm) as [mrna'|]; [|reflexivity].
    cbn [bind fst snd].
    destruct (get_arrays psi' mrna' cell_metric) as [[[o a] m]|] eqn:Harr;
      [|reflexivity].
    cbn [bind fst snd].
    rewrite (get_arrays_total_cells _ _ _ Harr). reflexivity.
  - cbn [fst snd bind].
    destruct (get_arrays psi mrna cell_metric) as [[[o a] m]|] eqn:Harr;
      [|reflexivity].
    cbn [bind fst snd].
    rewrite (get_arrays_total_cells _ _ _ Harr). reflexivity.
Qed.

(** C2.  [psix_score] counts [total_scored_cells] as the number of cells with
    a defined observation minus the number of those cells whose collapsed and
    rounded molecule count is 0; when the count is not positive it returns
    [nan] (not 0), and otherwise the sum of the per-cell scores divided by
    the count.  With [randomize] the cells are those of the permuted
    arrays. *)
Theorem psix_score_total_scored_cells
  (psi mrna : list float64) (cell_metric : metric) (c : float64)
  (randomize : bool) (min_probability : float64) (seed : Z)
  (turbo : option (list table)) (rng : rng_state) :
  fst (psix_score binom np_random_seed shuffle psi mrna cell_metric c
                  randomize min_probability seed turbo rng)
  = (inputs <- smoother_inputs np_random_seed shuffle psi mrna randomize seed ;;
     let '(psi', mrna') := inputs in
     arrays <- get_arrays psi' mrna' cell_metric ;;
     let '(o, a, m) := arrays in
     let total_cells :=
       (Z.of_nat (length (filter (fun x => negb (isnan x)) psi'))
        - Z.of_nat
            (length
               (filter (fun i =>
                          (0 =? round_mrna (collapse_mrna (nth i mrna' NaN)))%Z)
                       (scored_cells psi'))))%Z in
     if (total_cells <=? 0)%Z then Some NaN
     else
       L_vec <- per_cell_scores binom o a (map round_mrna m) c min_probability
                                turbo ;;
       Some (fdiv (np_sum L_vec) (of_int total_cells)))
  /\ smoother_inputs np_random_seed shuffle psi mrna false seed
     = Some (psi, mrna).
Proof.
  split; [|reflexivity].
  rewrite psix_score_value.
  destruct (smoother_inputs np_random_seed shuffle psi mrna randomize seed)
    as [[psi' mrna']|];
    [|reflexivity].
  cbn [bind fst snd].
  destruct (get_arrays psi' mrna' cell_metric) as [[[o a] m]|];
    reflexivity.
Qed.

(** C5.  With [randomize] the score does not depend on the state the global
    generator was in: two calls with the same seed give the same score (and
    leave the generator in the same state).  The permutation is drawn once,
    from the generator seeded with [seed], over the index range of all
    cells, so it depends on the seed and the number of cells only; both
    arrays are reindexed by it before the smoother runs, and the score is
    that of the reindexed arrays. *)
Theorem psix_score_randomize_deterministic
  (psi mrna : list float64) (cell_metric : metric) (c : float64)
  (min_probability : float64) (seed : Z) (turbo : option (list table))
  (rng1 rng2 : rng_state) :
  psix_score binom np_random_seed shuffle psi mrna cell_metric c true
             min_probability seed turbo rng1
  = psix_score binom np_random_seed shuffle psi mrna cell_metric c true
               min_probability seed turbo rng2
  /\ fst (psix_score binom np_random_seed shuffle psi mrna cell_metric c true
                     min_probability seed turbo rng1)
     = (let perm :=
          fst (shuffle (np_random_seed seed) (range (length psi))) in
        psi' <- fancy_index psi perm ;;
        mrna' <- fancy_index mrna perm ;;
        fst (psix_score binom np_random_seed shuffle psi' mrna' cell_metric c
                        false min_probability seed turbo rng1))
  /\ snd (psix_score binom np_random_seed shuffle psi mrna cell_metric c true
                     min_probability seed turbo rng1)
     = snd (shuffle (np_random_seed seed) (range (length psi))).
Proof.
  split; [reflexivity|]. split.
  - rewrite psix_score_value. unfold smoother_inputs, drawn_permutation.
    cbv zeta.
    destruct (fancy_index psi
                (fst (shuffle (np_random_seed seed) (range (length psi)))))
      as [psi'|]; [|reflexivity].
    cbn [bind].
    destruct (fancy_index mrna
                (fst (shuffle (np_random_seed seed) (range (length psi)))))
      as [mrna'|]; [|reflexivity].
    cbn [bind]. rewrite psix_score_value. reflexivity.
  - unfold psix_score.
    destruct (shuffle (np_random_seed seed) (range (length psi)))
      as [perm rng']. reflexivity.
Qed.

End Driver.

(** ** The turbo lookup path *)

Section Turbo.

Variable binom : float64 -> float64 -> float64.
Variable rng_state : Type.
Variable np_random_seed : Z -> rng_state.
Variable shuffle : rng_state -> list Z -> list Z * rng_state.

Lemma clamp_branches (x : Z) :
  (if (x <? 0)%Z then 0%Z else if (98 <? x)%Z then 98%Z else x)
  = clamp 0 98 x.
Proof.
  unfold clamp.
  destruct (x <? 0)%Z eqn:E1; [apply Z.ltb_lt in E1; lia|].
  apply Z.ltb_ge in E1.
  destruct (98 <? x)%Z eqn:E2;
    [apply Z.ltb_lt in E2 | apply Z.ltb_ge in E2]; lia.
Qed.

Lemma cap_mrna_min (n x : Z) : cap_mrna n x = Z.min x n.
Proof.
  unfold cap_mrna.
  destruct (n <=? x)%Z eqn:E; [apply Z.leb_le in E | apply Z.leb_gt in E];
    lia.
Qed.

Lemma psix_turbo_entry (o x : float64) (r : Z) (T : list table) :
  psix_turbo o x r T = turbo_entry T r o x.
Proof.
  unfold psix_turbo, turbo_entry, ratio_bin.
  rewrite !(fmul_comm (of_int 100)).
  destruct (np_int (np_round (fmul o (of_int 100)))) as [i|]; [|reflexivity].
  cbn [bind].
  destruct (np_int (np_round (fmul x (of_int 100)))) as [j|]; [|reflexivity].
  cbn [bind]. rewrite clamp_branches. reflexivity.
Qed.

Lemma L_score_turbo_cell (o a g : float64) (r : Z) (T : list table) :
  L_score_turbo o a g r T = turbo_cell_score T r o a g.
Proof.
  unfold L_score_turbo, turbo_cell_score. rewrite !psix_turbo_entry.
  reflexivity.
Qed.

(** The loop of [psi_observations_scores_vec_turbo] scores the cells in
    order, one entry per cell. *)
Lemma psi_observations_scores_vec_turbo_cells
  (o a : list float64) (g : float64) (r : list Z) (T : list table) :
  length a = length o -> length r = length o ->
  psi_observations_scores_vec_turbo o a g r T
  = mapM (fun t => turbo_cell_score T (snd t) (fst (fst t)) (snd (fst t)) g)
         (zip3 o a r).
Proof.
  intros Ha Hr. unfold psi_observations_scores_vec_turbo.
  rewrite (foldM_ext _
             (fun acc i =>
                b <- (psi_o <- nth_error o i ;;
                      psi_a <- nth_error a i ;;
                      mrna <- nth_error r i ;;
                      L_score_turbo psi_o psi_a g mrna T) ;;
                Some (acc ++ [b]))).
  2:{ intros acc i.
      destruct (nth_error o i); [|reflexivity]. cbn [bind].
      destruct (nth_error a i); [|reflexivity]. cbn [bind].
      destruct (nth_error r i); reflexivity. }
  rewrite foldM_append.
  rewrite (mapM_ext _
             (fun i =>
                t <- nth_error (zip3 o a r) i ;;
                turbo_cell_score T (snd t) (fst (fst t)) (snd (fst t)) g)).
  2:{ intros i.
      rewrite <- (nth_error_zip3
                    (fun x y z => turbo_cell_score T z x y g) o a r i)
        by lia.
      destruct (nth_error o i); [|reflexivity]. cbn [bind].
      destruct (nth_error a i); [|reflexivity]. cbn [bind].
      destruct (nth_error r i); [|reflexivity]. cbn [bind].
      apply L_score_turbo_cell. }
  rewrite <- (zip3_length o a r) by lia.
  rewrite mapM_nth_error.
  destruct (mapM _ (zip3 o a r)); reflexivity.
Qed.

Lemma mapM_zip3_map_r {A B C C' D : Type}
  (F : A -> B -> C' -> option D) (h : C -> C') :
  forall (o : list A) (a : list B) (r : list C),
    mapM (fun t => F (fst (fst t)) (snd (fst t)) (snd t))
         (zip3 o a (map h r))
    = mapM (fun t => F (fst (fst t)) (snd (fst t)) (h (snd t)))
           (zip3 o a r).
Proof.
  induction o as [| x o IH]; intros a r; [reflexivity|].
  destruct a as [| y a]; [reflexivity|].
  destruct r as [| z r]; [reflexivity|].
  unfold zip3 in *. simpl. rewrite IH. reflexivity.
Qed.

(** The value of [psix_score] on the turbo path, without permutation. *)
Lemma psix_score_turbo_value
  (psi mrna : list float64) (cell_metric : metric) (c : float64)
  (min_probability : float64) (seed : Z) (T : list table)
  (rng : rng_state) :
  truthy (Some T) = true ->
  fst (psix_score binom np_random_seed shuffle psi mrna cell_metric c false
                  min_probability seed (Some T) rng)
  = (arrays <- get_arrays psi mrna cell_metric ;;
     let '(o, a, m) := arrays in
     let total_cells := total_scored_cells psi mrna in
     if (total_cells <=? 0)%Z then Some NaN
     else
       L_vec <-
         mapM (fun t =>
                 turbo_cell_score
                   T (Z.min (round_mrna (snd t)) (Z.of_nat (length T)))
                   (fst (fst t)) (snd (fst t)) (np_nanmean o))
              (zip3 o a m) ;;
       Some (fdiv (np_sum L_vec) (of_int total_cells))).
Proof.
  intros Htruthy. rewrite psix_score_value.
  unfold smoother_inputs. cbn [bind fst snd].
  destruct (get_arrays psi mrna cell_metric) as [[[o a] m]|] eqn:Harr;
    [|reflexivity].
  cbn [bind fst snd].
  destruct (total_scored_cells psi mrna <=? 0)%Z; [reflexivity|].
  unfold per_cell_scores. rewrite Htruthy. cbn [tables].
  destruct (get_arrays_lengths _ _ _ Harr) as [Ha Hm].
  rewrite psi_observations_scores_vec_turbo_cells
    by (rewrite ?length_map; assumption).
  rewrite map_map.
  rewrite (mapM_zip3_map_r
             (fun x y z => turbo_cell_score T z x y (np_nanmean o))).
  f_equal. apply mapM_ext. intros t. rewrite cap_mrna_min. reflexivity.
Qed.

(** C6.  With a turbo table [T] the score contribution of a cell is
    [log T[r-1][round(100 o), clamp(round(100 a) - 1, 0, 98)]
     - log T[r-1][round(100 o), clamp(round(100 g) - 1, 0, 98)]],
    where [o] is its observed ratio, [a] its neighbourhood estimate, [g] the
    global estimate and [r] its rounded molecule count capped at the number
    of tables; the exon score is the sum of these contributions over the
    filtered cells divided by the count of scored cells. *)
Theorem psix_score_turbo_lookup
  (psi mrna : list float64) (cell_metric : metric) (c : float64)
  (min_probability : float64) (seed : Z) (T : list table)
  (rng : rng_state) :
  truthy (Some T) = true ->
  (forall (o a g : float64) (r : Z),
     L_score_turbo o a g r T
     = (i <- np_int (np_round (fmul (of_int 100) o)) ;;
        j_a <- np_int (np_round (fmul (of_int 100) a)) ;;
        j_g <- np_int (np_round (fmul (of_int 100) g)) ;;
        tbl <- py_index T (r - 1) ;;
        row <- py_index tbl i ;;
        p_a <- py_index row (Z.max 0 (Z.min 98 (j_a - 1))) ;;
        p_g <- py_index row (Z.max 0 (Z.min 98 (j_g - 1))) ;;
        Some (fsub (flog p_a) (flog p_g))))
  /\ fst (psix_score binom np_random_seed shuffle psi mrna cell_metric c
                     false min_probability seed (Some T) rng)
     = (arrays <- get_arrays psi mrna cell_metric ;;
        let '(o, a, m) := arrays in
        let g := np_nanmean o in
        let total_cells := total_scored_cells psi mrna in
        if (total_cells <=? 0)%Z then Some NaN
        else
          L_vec <-
            mapM (fun '(o_i, a_i, m_i) =>
                    let r_i := Z.min (round_mrna m_i)
                                     (Z.of_nat (length T)) in
                    L_score_turbo o_i a_i g r_i T)
                 (zip3 o a m) ;;
          Some (fdiv (np_sum L_vec) (of_int total_cells))).
Proof.
  intros Htruthy. split.
  - intros o a g r. rewrite L_score_turbo_cell.
    unfold turbo_cell_score, turbo_entry, ratio_bin, clamp.
    destruct (np_int (np_round (fmul (of_int 100) o))) as [i|];
      [|reflexivity].
    cbn [bind].
    destruct (np_int (np_round (fmul (of_int 100) a))) as [j_a|];
      [|reflexivity].
    cbn [bind].
    destruct (np_int (np_round (fmul (of_int 100) g))) as [j_g|].
    2:{ cbn [bind]. destruct (py_index T (r - 1)) as [tbl|]; [|reflexivity].
        cbn [bind]. destruct (py_index tbl i) as [row|]; [|reflexivity].
        cbn [bind].
        destruct (py_index row (Z.max 0 (Z.min 98 (j_a - 1))));
          reflexivity. }
    cbn [bind].
    destruct (py_index T (r - 1)) as [tbl|]; [|reflexivity]. cbn [bind].
    destruct (py_index tbl i) as [row|]; [|reflexivity]. cbn [bind].
    destruct (py_index row (Z.max 0 (Z.min 98 (j_a - 1)))); reflexivity.
  - rewrite (@psix_score_turbo_value psi mrna cell_metric c min_probability
               seed T rng Htruthy).
    destruct (get_arrays psi mrna cell_metric) as [[[o a] m]|];
      [|reflexivity].
    cbn [bind]. cbv zeta.
    destruct (total_scored_cells psi mrna <=? 0)%Z; [reflexivity|].
    f_equal. apply mapM_ext. intros [[o_i a_i] m_i]. cbn [fst snd].
    symmetry. apply L_score_turbo_cell.
Qed.

Lemma nth_error_last {A : Type} (l : list A) (d : A) :
  l <> [] -> nth_error l (length l - 1) = Some (last l d).
Proof.
  induction l as [| x l IH]; intros H; [contradiction|].
  destruct l as [| y l]; [reflexivity|].
  change (last (x :: y :: l) d) with (last (y :: l) d).
  rewrite <- IH by discriminate.
  simpl. rewrite Nat.sub_0_r. reflexivity.
Qed.

Lemma truthy_nonempty (T : list table) : truthy (Some T) = true -> T <> [].
Proof. destruct T; [discriminate | discriminate]. Qed.

(** Table index [-1] is the last table, the one of the largest count. *)
Lemma py_index_minus_one (T : list table) :
  T <> [] ->
  py_index T (0 - 1) = Some (last T [])
  /\ py_index T (Z.of_nat (length T) - 1) = Some (last T []).
Proof.
  intros H. assert (Hlen : (0 < length T)%nat).
  { destruct T; [contradiction | simpl; lia]. }
  unfold py_index. split.
  - change (0 <=? 0 - 1)%Z with false. cbv iota zeta.
    replace (- Z.of_nat (length T) <=? 0 - 1)%Z with true
      by (symmetry; apply Z.leb_le; lia).
    replace (Z.to_nat (Z.of_nat (length T) + (0 - 1)))
      with (length T - 1)%nat by lia.
    apply nth_error_last. exact H.
  - cbv zeta.
    replace (0 <=? Z.of_nat (length T) - 1)%Z with true
      by (symmetry; apply Z.leb_le; lia).
    replace (Z.to_nat (Z.of_nat (length T) - 1))
      with (length T - 1)%nat by lia.
    apply nth_error_last. exact H.
Qed.

Lemma turbo_entry_table (T : list table) (r : Z) (o x : float64) :
  turbo_entry T r o x = (tbl <- py_index T (r - 1) ;; table_entry tbl o x).
Proof.
  unfold turbo_entry, table_entry.
  destruct (ratio_bin o) as [i|], (ratio_bin x) as [j|],
    (py_index T (r - 1)) as [tbl|]; reflexivity.
Qed.

Lemma turbo_cell_score_table (T : list table) (r : Z) (o a g : float64) :
  turbo_cell_score T r o a g
  = (tbl <- py_index T (r - 1) ;; table_score tbl o a g).
Proof.
  unfold turbo_cell_score, table_score. rewrite !turbo_entry_table.
  destruct (py_index T (r - 1)) as [tbl|]; reflexivity.
Qed.

Lemma ratio_bin_int (z x : R) (k : Z) :
  (z * x = IZR k)%R -> np_int (np_round (fmul (Fin z) (Fin x))) = Some k.
Proof.
  intros H. cbn [fmul]. rewrite H. rewrite np_int_np_round.
  rewrite Rround_half_even_IZR. reflexivity.
Qed.

Lemma example_table_entries :
  table_entry [example_row] (Fin 0) (Fin 1) = Some (Fin 2)
  /\ table_entry [example_row] (Fin 0) (Fin 0) = Some (Fin 1).
Proof.
  unfold table_entry, ratio_bin, of_int.
  rewrite (@ratio_bin_int 100 0 0) by (simpl; lra).
  rewrite (@ratio_bin_int 100 1 100) by (simpl; lra).
  cbn [bind]. split; reflexivity.
Qed.

(** C9.  On the turbo path a filtered cell whose collapsed and rounded
    molecule count is 0 is scored, and not with a neutral 0: the cap leaves
    the count 0, and [psix_turbo] with the count 0 reads the table at index
    [0 - 1 = -1], that is the last table (the one of the largest molecule
    count), exactly as it does for the count [len(T)]; the score of the
    cell is the difference of the logarithms of two entries of that table,
    nonzero whenever the two entries are positive and differ; the exon
    score sums these scores, while the cell is not counted in
    [total_scored_cells]. *)
Theorem turbo_zero_molecule_cell
  (psi mrna : list float64) (cell_metric : metric) (c : float64)
  (min_probability : float64) (seed : Z) (T : list table)
  (rng : rng_state) :
  truthy (Some T) = true ->
  let n := Z.of_nat (length T) in
  let top := last T [] in
  cap_mrna n 0 = 0%Z
  /\ (forall o a : float64,
        psix_turbo o a 0 T = table_entry top o a
        /\ psix_turbo o a n T = table_entry top o a)
  /\ (forall o a g : float64,
        L_score_turbo o a g 0 T = table_score top o a g)
  /\ (forall (o a g : float64) (p_a p_g : R),
        table_entry top o a = Some (Fin p_a) ->
        table_entry top o g = Some (Fin p_g) ->
        (0 < p_a)%R -> (0 < p_g)%R -> p_a <> p_g ->
        exists s : R,
          L_score_turbo o a g 0 T = Some (Fin s) /\ s <> 0%R)
  /\ fst (psix_score binom np_random_seed shuffle psi mrna cell_metric c
                     false min_probability seed (Some T) rng)
     = (arrays <- get_arrays psi mrna cell_metric ;;
        let '(o, a, m) := arrays in
        let g := np_nanmean o in
        let total_cells :=
          (Z.of_nat (defined_count psi)
           - Z.of_nat (zero_molecule_count psi mrna))%Z in
        if (total_cells <=? 0)%Z then Some NaN
        else
          L_vec <-
            mapM (fun '(o_i, a_i, m_i) =>
                    let r_i := round_mrna m_i in
                    if (r_i =? 0)%Z then table_score top o_i a_i g
                    else
                      tbl <- py_index T (Z.min r_i n - 1) ;;
                      table_score tbl o_i a_i g)
                 (zip3 o a m) ;;
          Some (fdiv (np_sum L_vec) (of_int total_cells))).
Proof.
  intros Htruthy n top.
  assert (Hne : T <> []) by (apply truthy_nonempty; exact Htruthy).
  assert (Hn : (0 < n)%Z).
  { unfold n. destruct T; [contradiction | simpl length; lia]. }
  destruct (py_index_minus_one Hne) as [Hlast Hlast_n].
  fold n in Hlast_n. fold top in Hlast, Hlast_n.
  assert (Hzero : forall o a g : float64,
             L_score_turbo o a g 0 T = table_score top o a g).
  { intros o a g. rewrite L_score_turbo_cell, turbo_cell_score_table.
    rewrite Hlast. reflexivity. }
  split; [|split; [|split; [|split]]].
  - rewrite cap_mrna_min. lia.
  - intros o a. rewrite !psix_turbo_entry, !turbo_entry_table.
    rewrite Hlast, Hlast_n. split; reflexivity.
  - exact Hzero.
  - intros o a g p_a p_g Ha Hg Hpa Hpg Hneq.
    exists (ln p_a + - ln p_g)%R. split.
    + rewrite Hzero. unfold table_score. rewrite Ha, Hg.
      cbn [bind flog]. rewrite !Rltb_true by assumption. reflexivity.
    + intros Hs. apply Hneq. apply ln_inv; [assumption | assumption | lra].
  - rewrite (@psix_score_turbo_value psi mrna cell_metric c min_probability
               seed T rng Htruthy).
    destruct (get_arrays psi mrna cell_metric) as [[[o a] m]|];
      [|reflexivity].
    cbn [bind]. cbv zeta.
    change (Z.of_nat (defined_count psi)
            - Z.of_nat (zero_molecule_count psi mrna))%Z
      with (total_scored_cells psi mrna).
    destruct (total_scored_cells psi mrna <=? 0)%Z; [reflexivity|].
    f_equal. apply mapM_ext. intros [[o_i a_i] m_i]. cbn [fst snd].
    fold n. rewrite turbo_cell_score_table.
    destruct (round_mrna m_i =? 0)%Z eqn:E; [|reflexivity].
    apply Z.eqb_eq in E. rewrite E.
    rewrite Z.min_l by lia. rewrite Hlast. reflexivity.
Qed.

End Turbo.

(** ** Cells without molecules on the direct path *)

Section ZeroMolecules.

Variable binom : float64 -> float64 -> float64.

Open Scope R_scope.

(** Equal probabilities give the score 0, whatever they are. *)
Lemma floored_log_ratio_same (min_probability p : float64) :
  floored_log_ratio min_probability p p = Fin 0.
Proof.
  unfold floored_log_ratio. cbv zeta.
  destruct (flog (np_max2 min_probability p)) as [l| | |]; cbn;
    try reflexivity.
  f_equal. ring.
Qed.


Lemma clamp_psi_nan : clamp_psi NaN = NaN.
Proof. reflexivity. Qed.

Lemma comb_0_0 :
  binom (Fin 0) (Fin 0) = Fin 1 -> comb binom (Fin 0) (Fin 0) = Fin 1.
Proof.
  intros H. unfold comb, fge. cbn [fle].
  rewrite Rleb_true by lra. exact H.
Qed.

(** [comb] is 0 when its first argument is [nan]. *)
Lemma comb_nan (k : float64) : comb binom NaN k = Fin 0.
Proof. unfold comb. destruct k; reflexivity. Qed.

(** With no captured molecule, a finite reference ratio and a finite
    nonzero capture efficiency the model is in the known-m regime and its
    closed form is C(0,0) C(0,0) / C(0,0) = 1. *)
Lemma probability_zero_molecules (y z x : R) :
  binom (Fin 0) (Fin 0) = Fin 1 -> x <> 0 ->
  m_unknown_condition (Fin y) (Fin z) (Fin x) 0 = false
  /\ probability_psi_observation binom (Fin y) (Fin z) (Fin x) 0
     = Some (Fin 1).
Proof.
  intros Hb Hx.
  assert (Hcond : m_unknown_condition (Fin y) (Fin z) (Fin x) 0 = false).
  { unfold m_unknown_condition, of_int. cbn [fdiv fmul fsub fadd fneg flt].
    rewrite (Reqb_false Hx). cbn [fmul flt].
    rewrite !Rltb_false; [reflexivity | |].
    - right. field. exact Hx.
    - right. field. exact Hx. }
  split; [exact Hcond|].
  rewrite probability_psi_observation_regimes, Hcond.
  unfold known_m_closed_form, of_int. cbn [fdiv fmul fsub fadd fneg].
  rewrite (Reqb_false Hx). cbn [fmul].
  replace (0 / x * z) with 0 by (field; exact Hx).
  replace (0 * y) with 0 by ring.
  replace (0 / x * (1 + - z)) with 0 by (field; exact Hx).
  replace (0 * (1 + - y)) with 0 by ring.
  replace (0 / x) with 0 by (field; exact Hx).
  rewrite (comb_0_0 Hb). cbn [fmul fdiv].
  rewrite Reqb_false by lra. do 2 f_equal. field.
Qed.



(** The vectorised scorer scores the cells in order, each with its clamped
    neighbourhood estimate. *)
Lemma psi_observations_scores_vec_cells
  (o a : list float64) (g : float64) (r : list Z)
  (c min_probability : float64) :
  length a = length o -> length r = length o -> o <> [] ->
  psi_observations_scores_vec binom o a g r c min_probability
  = mapM (fun t =>
            psi_observation_score binom (fst (fst t)) (clamp_psi (snd (fst t)))
                                  g (snd t) c min_probability)
         (zip3 o a r).
Proof.
  intros Ha Hr Hne. unfold psi_observations_scores_vec. cbv zeta.
  destruct (seq 0 (length o)) eqn:Hseq.
  { destruct o; [contradiction | discriminate]. }
  rewrite <- Hseq.
  rewrite (mapM_ext _
             (fun i =>
                t <- nth_error (zip3 o (map clamp_psi a) r) i ;;
                psi_observation_score binom (fst (fst t)) (snd (fst t)) g
                                      (snd t) c min_probability)).
  2:{ intros i.
      apply (nth_error_zip3
               (fun x y z => psi_observation_score binom x y g z c
                                                   min_probability));
        rewrite ?length_map; lia. }
  rewrite <- (zip3_length o (map clamp_psi a) r)
    by (rewrite ?length_map; lia).
  rewrite mapM_nth_error.
  clear Hseq Hne. revert a r Ha Hr.
  induction o as [| x o IH]; intros a r Ha Hr; [reflexivity|].
  destruct a as [| y a]; [discriminate|].
  destruct r as [| z r]; [discriminate|].
  unfold zip3 in *. cbn [map combine mapM fst snd].
  rewrite IH by (simpl in *; lia). reflexivity.
Qed.

(** With a [nan] reference ratio the same cell is in the known-m regime
    too, but both numerator coefficients are [comb(nan, 0) = 0]. *)
Lemma probability_zero_molecules_nan (y x : R) :
  binom (Fin 0) (Fin 0) = Fin 1 -> x <> 0 ->
  probability_psi_observation binom (Fin y) NaN (Fin x) 0 = Some (Fin 0).
Proof.
  intros Hb Hx.
  rewrite probability_psi_observation_regimes.
  unfold m_unknown_condition, known_m_closed_form, of_int.
  cbn [fdiv]. rewrite (Reqb_false Hx).
  cbn [fmul fsub fadd fneg flt orb].
  rewrite !comb_nan.
  replace (0 / x) with 0 by (field; exact Hx).
  rewrite (comb_0_0 Hb). cbn [fmul fdiv].
  rewrite Reqb_false by lra. do 2 f_equal. field.
Qed.

Lemma score_zero_molecules_nan_estimate (y g x mp : R) :
  binom (Fin 0) (Fin 0) = Fin 1 -> x <> 0 -> 0 < mp < 1 ->
  psi_observation_score binom (Fin y) NaN (Fin g) 0 (Fin x) (Fin mp)
  = Some (Fin (ln mp + - ln 1)).
Proof.
  intros Hb Hx Hmp. rewrite psi_observation_score_eq. cbn [isnan].
  rewrite (probability_zero_molecules_nan y Hb Hx).
  destruct (probability_zero_molecules y g Hb Hx) as [_ ->].
  cbn [bind]. unfold floored_log_ratio, np_max2. cbn [isnan orb flt].
  rewrite (@Rltb_false mp 0) by lra. rewrite (@Rltb_true mp 1) by lra.
  cbn [flog]. rewrite (@Rltb_true 0 mp) by lra.
  rewrite (@Rltb_true 0 1) by lra.
  reflexivity.
Qed.


(** A reference estimate equal to the global estimate scores 0. *)
Lemma score_same_reference (o t : float64) (r : Z)
  (c min_probability p : float64) :
  probability_psi_observation binom o t c r = Some p ->
  psi_observation_score binom o t t r c min_probability = Some (Fin 0).
Proof.
  intros H. rewrite psi_observation_score_eq.
  destruct (isnan o); [reflexivity|].
  rewrite H. cbn [bind]. rewrite floored_log_ratio_same. reflexivity.
Qed.


End ZeroMolecules.

(** ** The direct path at exon level *)

Section DirectPath.

Variable binom : float64 -> float64 -> float64.
Variable rng_state : Type.
Variable np_random_seed : Z -> rng_state.
Variable shuffle : rng_state -> list Z -> list Z * rng_state.

Open Scope R_scope.

(** The value of [psix_score] on the direct path, without permutation. *)
Lemma psix_score_direct_value
  (psi mrna : list float64) (cell_metric : metric) (c : float64)
  (min_probability : float64) (seed : Z) (turbo : option (list table))
  (rng : rng_state) :
  truthy turbo = false ->
  fst (psix_score binom np_random_seed shuffle psi mrna cell_metric c false
                  min_probability seed turbo rng)
  = (arrays <- get_arrays psi mrna cell_metric ;;
     let '(o, a, m) := arrays in
     let total_cells := total_scored_cells psi mrna in
     if (total_cells <=? 0)%Z then Some NaN
     else
       L_vec <-
         mapM (fun t =>
                 psi_observation_score
                   binom (fst (fst t)) (clamp_psi (snd (fst t)))
                   (np_nanmean o) (round_mrna (snd t)) c min_probability)
              (zip3 o a m) ;;
       Some (fdiv (np_sum L_vec) (of_int total_cells))).
Proof.
  intros Htruthy. rewrite psix_score_value.
  unfold smoother_inputs. cbn [bind fst snd].
  destruct (get_arrays psi mrna cell_metric) as [[[o a] m]|] eqn:Harr;
    [|reflexivity].
  cbn [bind fst snd].
  destruct (total_scored_cells psi mrna <=? 0)%Z eqn:Htotal; [reflexivity|].
  apply Z.leb_gt in Htotal.
  unfold per_cell_scores. rewrite Htruthy.
  destruct (get_arrays_lengths _ _ _ Harr) as [Ha Hm].
  assert (Hne : o <> []).
  { intros ->. rewrite <- (get_arrays_total_cells _ _ _ Harr) in Htotal.
    simpl length in Htotal. lia. }
  rewrite psi_observations_scores_vec_cells
    by (rewrite ?length_map; assumption).
  rewrite (mapM_zip3_map_r
             (fun x y z =>
                psi_observation_score binom x (clamp_psi y) (np_nanmean o) z
                                      c min_probability)).
  reflexivity.
Qed.

Lemma lonely_estimate_0 : cell_estimate lonely_psi lonely_metric 0 = NaN.
Proof.
  unfold cell_estimate, neighborhood_estimate.
  change (contributions lonely_psi (nth 0 (fst lonely_metric) [])
                        (nth 0 (snd lonely_metric) []))
    with (@nil (float64 * float64)).
  cbv zeta. cbn [map]. unfold np_sum. cbn [fold_left].
  rewrite fgt_0_0. reflexivity.
Qed.

Lemma lonely_estimate_1 :
  cell_estimate lonely_psi lonely_metric 1 = Fin (1 / 2).
Proof.
  unfold cell_estimate, neighborhood_estimate.
  change (contributions lonely_psi (nth 1 (fst lonely_metric) [])
                        (nth 1 (snd lonely_metric) []))
    with [(Fin (1 / 2), Fin 1)].
  cbv zeta. cbn [map fst snd]. unfold np_sum. cbn [fold_left fmul fadd].
  unfold fgt. cbn [flt]. rewrite Rltb_true by lra.
  cbn [fdiv]. rewrite Reqb_false by lra. f_equal. field.
Qed.

Lemma collapse_mrna_0 : collapse_mrna (Fin 0) = Fin 0.
Proof.
  unfold collapse_mrna, fgt. cbn [flt]. rewrite Rltb_false by lra.
  reflexivity.
Qed.

Lemma collapse_mrna_1 : collapse_mrna (Fin 1) = Fin 1.
Proof.
  unfold collapse_mrna, fgt. cbn [flt fle]. rewrite Rltb_true by lra.
  rewrite Rleb_true by lra. reflexivity.
Qed.

Lemma round_mrna_int (z : Z) :
  (-1 <= z <= 1)%Z -> round_mrna (Fin (IZR z)) = z.
Proof.
  intros Hz. unfold round_mrna.
  rewrite astype_int_np_round; rewrite Rround_half_even_IZR;
    [reflexivity | apply int64_range_small; exact Hz].
Qed.

Lemma lonely_get_arrays :
  get_arrays lonely_psi lonely_mrna lonely_metric
  = Some ([Fin (1 / 2); Fin (1 / 2)], [NaN; Fin (1 / 2)], [Fin 0; Fin 1]).
Proof.
  rewrite get_arrays_well_formed by reflexivity.
  change (scored_cells lonely_psi) with [0%nat; 1%nat].
  cbn [map]. rewrite lonely_estimate_0, lonely_estimate_1.
  change (nth 0 lonely_mrna NaN) with (Fin 0).
  change (nth 1 lonely_mrna NaN) with (Fin 1).
  rewrite collapse_mrna_0, collapse_mrna_1. reflexivity.
Qed.

Lemma lonely_total : total_scored_cells lonely_psi lonely_mrna = 1%Z.
Proof.
  unfold total_scored_cells, zero_molecule_count.
  change (defined_count lonely_psi) with 2%nat.
  change (scored_cells lonely_psi) with [0%nat; 1%nat].
  cbn [filter].
  change (nth 0 lonely_mrna NaN) with (Fin 0).
  change (nth 1 lonely_mrna NaN) with (Fin 1).
  rewrite collapse_mrna_0, collapse_mrna_1.
  rewrite (@round_mrna_int 0), (@round_mrna_int 1) by lia. reflexivity.
Qed.

Lemma lonely_global : np_nanmean [Fin (1 / 2); Fin (1 / 2)] = Fin (1 / 2).
Proof.
  unfold np_nanmean. cbn [filter isnan negb length].
  unfold np_sum. cbn [fold_left fadd fdiv].
  rewrite Reqb_false by (simpl; lra). f_equal. simpl. field.
Qed.

Lemma clamp_psi_half : clamp_psi (Fin (1 / 2)) = Fin (1 / 2).
Proof.
  unfold clamp_psi, fgt. cbn [flt]. rewrite !Rltb_false by lra.
  reflexivity.
Qed.

(** The model returns a value for cell 1 (it is in the known-m regime). *)
Lemma lonely_cell_1_returns :
  exists p : float64,
    probability_psi_observation binom (Fin (1 / 2)) (Fin (1 / 2))
                                (Fin (1 / 10)) 1
    = Some p.
Proof.
  rewrite probability_psi_observation_regimes.
  unfold m_unknown_condition, of_int. cbn [fdiv].
  rewrite Reqb_false by lra. cbn [fmul fsub fadd fneg flt].
  rewrite !Rltb_false by lra. cbn [orb]. eauto.
Qed.

(** The exon score of the example is the score of the cell without
    molecules, [log(1/100) - log 1], although only cell 1 is counted. *)
Lemma lonely_exon_score (seed : Z) (rng : rng_state) :
  binom (Fin 0) (Fin 0) = Fin 1 ->
  fst (psix_score binom np_random_seed shuffle lonely_psi lonely_mrna
                  lonely_metric (Fin (1 / 10)) false (Fin (1 / 100)) seed
                  None rng)
  = Some (Fin (ln (1 / 100) + - ln 1)).
Proof.
  intros Hb. rewrite psix_score_direct_value by reflexivity.
  rewrite lonely_get_arrays. cbn [bind]. rewrite lonely_total.
  change (1 <=? 0)%Z with false. cbv iota.
  unfold zip3. cbn [combine mapM fst snd].
  rewrite lonely_global, clamp_psi_nan, clamp_psi_half.
  rewrite (@round_mrna_int 0), (@round_mrna_int 1) by lia.
  rewrite (@score_zero_molecules_nan_estimate binom (1 / 2) (1 / 2) (1 / 10)
             (1 / 100) Hb) by lra.
  destruct lonely_cell_1_returns as [p Hp].
  rewrite (@score_same_reference binom _ _ _ _ (Fin (1 / 100)) _ Hp).
  cbn [bind]. unfold np_sum, of_int. cbn [fold_left fadd fdiv].
  rewrite Reqb_false by lra. do 2 f_equal. field.
Qed.

End DirectPath.

(** ** Instances *)

Section Instances.

Open Scope R_scope.

Lemma get_arrays_neighborhood_estimate_witness :
  well_formed lonely_psi lonely_mrna lonely_metric = true
  /\ get_arrays lonely_psi lonely_mrna lonely_metric
     = Some (map (fun i => nth i lonely_psi NaN) (scored_cells lonely_psi),
             map (fun i =>
                    neighborhood_estimate
                      lonely_psi (nth i (fst lonely_metric) [])
                      (nth i (snd lonely_metric) []))
                 (scored_cells lonely_psi),
             map (fun i => collapse_mrna (nth i lonely_mrna NaN))
                 (scored_cells lonely_psi)).
Proof.
  split; [reflexivity|].
  apply (@get_arrays_neighborhood_estimate lonely_psi lonely_mrna
           lonely_metric).
  reflexivity.
Defined.

Lemma psix_score_turbo_lookup_witness :
  truthy (Some [[example_row]]) = true
  /\ forall o a g : float64,
       L_score_turbo o a g 0 [[example_row]]
       = (i <- np_int (np_round (fmul (of_int 100) o)) ;;
          j_a <- np_int (np_round (fmul (of_int 100) a)) ;;
          j_g <- np_int (np_round (fmul (of_int 100) g)) ;;
          tbl <- py_index [[example_row]] (0 - 1) ;;
          row <- py_index tbl i ;;
          p_a <- py_index row (Z.max 0 (Z.min 98 (j_a - 1))) ;;
          p_g <- py_index row (Z.max 0 (Z.min 98 (j_g - 1))) ;;
          Some (fsub (flog p_a) (flog p_g))).
Proof.
  split; [reflexivity|].
  intros o a g.
  apply (@psix_score_turbo_lookup binom_one unit seed_unit shuffle_id
           lonely_psi lonely_mrna lonely_metric (Fin (1 / 10))
           (Fin (1 / 100)) 0%Z [[example_row]] tt).
  reflexivity.
Defined.

Lemma turbo_zero_molecule_cell_witness :
  truthy (Some [[example_row]]) = true
  /\ table_entry (last [[example_row]] []) (Fin 0) (Fin 1) = Some (Fin 2)
  /\ table_entry (last [[example_row]] []) (Fin 0) (Fin 0) = Some (Fin 1)
  /\ exists s : R,
       L_score_turbo (Fin 0) (Fin 1) (Fin 0) 0 [[example_row]]
       = Some (Fin s)
       /\ s <> 0.
Proof.
  destruct example_table_entries as [Ha Hg].
  split; [reflexivity|]. split; [exact Ha|]. split; [exact Hg|].
  destruct (@turbo_zero_molecule_cell binom_one unit seed_unit shuffle_id
              lonely_psi lonely_mrna lonely_metric (Fin (1 / 10))
              (Fin (1 / 100)) 0%Z [[example_row]] tt eq_refl)
    as [_ [_ [_ [Hscore _]]]].
  apply (Hscore (Fin 0) (Fin 1) (Fin 0) 2 1 Ha Hg); lra.
Defined.



End Instances.

(** ** The permutation that keeps the missing positions *)

Section FixNanFacts.

Variable rng_state : Type.
Variable np_random_permutation : rng_state -> list Z -> list Z * rng_state.

Lemma cell_defined_nth_error (arr : list float64) (k : nat) (x : float64) :
  nth_error arr k = Some x -> cell_defined arr k = negb (isnan x).
Proof.
  intros H. unfold cell_defined. rewrite (nth_error_nth _ _ _ H).
  reflexivity.
Qed.

(** The loop, started at position [k] with counter [j]. *)
Lemma fix_nan_loop (arr : list float64) (perm : list Z) :
  forall (n k : nat) (acc : list Z) (j : nat) (res : list Z) (j' : nat),
    (k + n <= length arr)%nat ->
    foldM (fix_nan_step arr perm) (seq k n) (acc, j) = Some (res, j') ->
    res = acc ++ map (fun i =>
                        if isnan (nth i arr NaN) then Z.of_nat i
                        else nth (j + length (filter (cell_defined arr)
                                                     (seq k (i - k))))
                                 perm 0%Z)
                     (seq k n)
    /\ j' = (j + length (filter (cell_defined arr) (seq k n)))%nat.
Proof.
  induction n as [| n IH]; intros k acc j res j' Hk Hrun.
  - cbn [foldM seq] in Hrun. injection Hrun as <- <-.
    cbn [seq map filter length]. rewrite app_nil_r. split; [reflexivity|lia].
  - cbn [foldM seq] in Hrun. unfold fix_nan_step at 1 in Hrun.
    destruct (nth_error arr k) as [x|] eqn:Hx.
    2:{ apply nth_error_None in Hx. lia. }
    cbv beta iota zeta delta [bind] in Hrun.
    assert (Hdef := cell_defined_nth_error _ _ Hx).
    assert (Hnth : nth k arr NaN = x) by (apply nth_error_nth; exact Hx).
    assert (Hshift : forall i : nat,
              In i (seq (S k) n) ->
              seq k (i - k) = k :: seq (S k) (i - S k)).
    { intros i Hi. apply in_seq in Hi.
      replace (i - k)%nat with (S (i - S k)) by lia. reflexivity. }
    change (seq k (S n)) with (k :: seq (S k) n).
    cbn [map filter]. rewrite Nat.sub_diag. cbn [seq filter length].
    rewrite Hnth, Hdef, Nat.add_0_r.
    destruct (isnan x) eqn:Hnan; cbn [negb].
    + apply IH in Hrun; [|lia]. destruct Hrun as [-> ->].
      split; [|reflexivity].
      rewrite <- app_assoc. cbn [app]. do 2 f_equal.
      apply map_ext_in. intros i Hi. rewrite (Hshift i Hi).
      cbn [filter]. rewrite Hdef. cbn [negb]. reflexivity.
    + destruct (nth_error perm j) as [p|] eqn:Hp; [|discriminate].
      cbv beta iota in Hrun.
      apply IH in Hrun; [|lia]. destruct Hrun as [-> ->].
      split; [|cbn [length]; lia].
      rewrite <- app_assoc. cbn [app].
      rewrite (nth_error_nth _ _ _ Hp). do 2 f_equal.
      apply map_ext_in. intros i Hi. rewrite (Hshift i Hi).
      cbn [filter]. rewrite Hdef. cbn [negb length].
      destruct (isnan (nth i arr NaN)); [reflexivity|].
      f_equal. lia.
Qed.

(** The loop raises no [IndexError] when the drawn permutation is long
    enough. *)
Lemma fix_nan_loop_total (arr : list float64) (perm : list Z) :
  forall (n k : nat) (acc : list Z) (j : nat),
    (k + n <= length arr)%nat ->
    (j + length (filter (cell_defined arr) (seq k n)) <= length perm)%nat ->
    exists res, foldM (fix_nan_step arr perm) (seq k n) (acc, j) = Some res.
Proof.
  induction n as [| n IH]; intros k acc j Hk Hj.
  - cbn [foldM seq]. eauto.
  - cbn [foldM seq]. unfold fix_nan_step at 1.
    destruct (nth_error arr k) as [x|] eqn:Hx.
    2:{ apply nth_error_None in Hx. lia. }
    cbv beta iota zeta delta [bind].
    assert (Hdef := cell_defined_nth_error _ _ Hx).
    change (seq k (S n)) with (k :: seq (S k) n) in Hj.
    cbn [filter] in Hj. rewrite Hdef in Hj.
    destruct (isnan x); cbn [negb] in Hj.
    + apply IH; [lia | exact Hj].
    + cbn [length] in Hj.
      destruct (nth_error perm j) as [p|] eqn:Hp.
      2:{ apply nth_error_None in Hp. lia. }
      cbv beta iota. apply IH; lia.
Qed.

(** The entries of the result at the defined positions, read in order, are
    the drawn permutation. *)
Lemma rank_enumerates (arr : list float64) (perm : list Z) :
  forall (n k j : nat),
    (j + length (filter (cell_defined arr) (seq k n)) <= length perm)%nat ->
    map (fun i =>
           nth (j + length (filter (cell_defined arr) (seq k (i - k))))
               perm 0%Z)
        (filter (cell_defined arr) (seq k n))
    = firstn (length (filter (cell_defined arr) (seq k n))) (skipn j perm).
Proof.
  induction n as [| n IH]; intros k j Hj; [reflexivity|].
  change (seq k (S n)) with (k :: seq (S k) n) in *.
  assert (Hshift : forall i : nat,
            In i (filter (cell_defined arr) (seq (S k) n)) ->
            seq k (i - k) = k :: seq (S k) (i - S k)).
  { intros i Hi. apply filter_In in Hi. destruct Hi as [Hi _].
    apply in_seq in Hi.
    replace (i - k)%nat with (S (i - S k)) by lia. reflexivity. }
  cbn [filter] in *. destruct (cell_defined arr k) eqn:Hdef.
  - cbn [length map] in *. rewrite Nat.sub_diag. cbn [seq filter length].
    rewrite Nat.add_0_r.
    destruct (nth_error perm j) as [p|] eqn:Hp.
    2:{ apply nth_error_None in Hp. lia. }
    rewrite (skipn_nth_error_cons _ _ Hp). cbn [firstn].
    rewrite (nth_error_nth _ _ _ Hp). f_equal.
    rewrite <- (IH (S k) (S j)) by lia.
    apply map_ext_in. intros i Hi. rewrite (Hshift i Hi).
    cbn [filter]. rewrite Hdef. cbn [length]. f_equal. lia.
  - rewrite <- (IH (S k) j) by lia.
    apply map_ext_in. intros i Hi. rewrite (Hshift i Hi).
    cbn [filter]. rewrite Hdef. reflexivity.
Qed.

Lemma nth_map_seq {B : Type} (f : nat -> B) (d : B) (n i : nat) :
  (i < n)%nat -> nth i (map f (seq 0 n)) d = f i.
Proof.
  intros H. rewrite (nth_indep _ d (f 0%nat)) by (rewrite length_map, length_seq; lia).
  rewrite map_nth. rewrite seq_nth by lia. reflexivity.
Qed.

Lemma observation_of_nat (arr : list float64) (i : nat) :
  (i < length arr)%nat -> observation arr (Z.of_nat i) = nth i arr NaN.
Proof.
  intros H. unfold observation, py_index.
  replace (0 <=? Z.of_nat i)%Z with true by (symmetry; apply Z.leb_le; lia).
  rewrite Nat2Z.id.
  destruct (nth_error arr i) as [x|] eqn:E.
  - symmetry. apply nth_error_nth. exact E.
  - apply nth_error_None in E. lia.
Qed.

Lemma filter_partition {A : Type} (p : A -> bool) (l : list A) :
  Permutation l (filter p l ++ filter (fun x => negb (p x)) l).
Proof.
  induction l as [| x l IH]; [constructor|].
  cbn [filter]. destruct (p x); cbn [negb app].
  - constructor. exact IH.
  - apply Permutation_cons_app. exact IH.
Qed.

Lemma nan_positions_complement (arr : list float64) :
  nan_positions arr
  = filter (fun i => negb (cell_defined arr i)) (seq 0 (length arr)).
Proof.
  unfold nan_positions. apply filter_ext. intros i. unfold cell_defined.
  rewrite negb_involutive. reflexivity.
Qed.

(** When the drawn permutation has the length of its argument, the function
    returns the list of the entries [fix_nan_entry]. *)
Lemma permute_array_fix_nan_entries (arr : list float64) (rng : rng_state) :
  let drawn :=
    fst (np_random_permutation rng (map Z.of_nat (scored_cells arr))) in
  length drawn = length (scored_cells arr) ->
  fst (permute_array_fix_nan np_random_permutation arr rng)
  = Some (map (fix_nan_entry arr drawn) (seq 0 (length arr))).
Proof.
  intros drawn Hlen. unfold permute_array_fix_nan.
  change (filter (fun i => negb (isnan (nth i arr NaN)))
                 (seq 0 (length arr)))
    with (scored_cells arr).
  subst drawn.
  destruct (np_random_permutation rng (map Z.of_nat (scored_cells arr)))
    as [perm rng'].
  cbn [fst] in *.
  destruct (@fix_nan_loop_total arr perm (length arr) 0 [] 0) as [[r j'] Hrun].
  { lia. }
  { fold (scored_cells arr). lia. }
  rewrite Hrun. cbn [bind fst].
  apply fix_nan_loop in Hrun; [|lia]. destruct Hrun as [-> _].
  cbn [app]. f_equal. apply map_ext. intros i. unfold fix_nan_entry.
  rewrite Nat.sub_0_r. reflexivity.
Qed.

Lemma fix_nan_entries_defined (arr : list float64) (perm : list Z) :
  length perm = length (scored_cells arr) ->
  map (fix_nan_entry arr perm) (scored_cells arr) = perm.
Proof.
  intros Hlen.
  rewrite (map_ext_in _
             (fun i => nth (0 + length (filter (cell_defined arr)
                                               (seq 0 (i - 0))))
                           perm 0%Z)).
  2:{ intros i Hi. unfold scored_cells in Hi. apply filter_In in Hi.
      destruct Hi as [_ Hdef]. unfold fix_nan_entry.
      unfold cell_defined in Hdef. apply negb_true_iff in Hdef.
      rewrite Hdef, Nat.sub_0_r. reflexivity. }
  unfold scored_cells. rewrite rank_enumerates.
  - fold (scored_cells arr). rewrite <- Hlen. cbn [skipn].
    apply firstn_all.
  - fold (scored_cells arr). lia.
Qed.

Lemma fix_nan_entries_nan (arr : list float64) (perm : list Z) :
  map (fix_nan_entry arr perm) (nan_positions arr)
  = map Z.of_nat (nan_positions arr).
Proof.
  apply map_ext_in. intros i Hi. unfold nan_positions in Hi.
  apply filter_In in Hi. destruct Hi as [_ Hnan].
  unfold fix_nan_entry. rewrite Hnan. reflexivity.
Qed.

(** X1.  When the permutation drawn by [np.random.permutation] has as many
    entries as its argument, [permute_array_fix_nan] returns an index array
    of the length of its input in which every position holding [nan] keeps
    its own index, and the positions holding a value receive, in order, the
    entries of the drawn permutation of the defined positions. *)
Theorem permute_array_fix_nan_keeps_nan (arr : list float64)
  (rng : rng_state) :
  let drawn :=
    fst (np_random_permutation rng (map Z.of_nat (scored_cells arr))) in
  length drawn = length (scored_cells arr) ->
  exists new_idx : list Z,
    fst (permute_array_fix_nan np_random_permutation arr rng) = Some new_idx
    /\ length new_idx = length arr
    /\ (forall i : nat,
          (i < length arr)%nat -> isnan (nth i arr NaN) = true ->
          nth i new_idx 0%Z = Z.of_nat i)
    /\ map (fun i => nth i new_idx 0%Z) (scored_cells arr) = drawn.
Proof.
  intros drawn Hlen.
  exists (map (fix_nan_entry arr drawn) (seq 0 (length arr))).
  split; [apply permute_array_fix_nan_entries; exact Hlen|].
  split; [rewrite length_map, length_seq; reflexivity|].
  split.
  - intros i Hi Hnan. rewrite nth_map_seq by exact Hi.
    unfold fix_nan_entry. rewrite Hnan. reflexivity.
  - transitivity (map (fix_nan_entry arr drawn) (scored_cells arr)).
    + apply map_ext_in. intros i Hi. unfold scored_cells in Hi.
      apply filter_In in Hi. destruct Hi as [Hi _]. apply in_seq in Hi.
      apply nth_map_seq. lia.
    + apply fix_nan_entries_defined. exact Hlen.
Qed.

(** X2.  When [np.random.permutation] returns a permutation of its
    argument, the index array returned by [permute_array_fix_nan] is a
    permutation of [range(n)], and reindexing the array by it leaves the
    missing values exactly where they were: position [i] of the reindexed
    array holds [nan] if and only if position [i] of the array does. *)
Theorem permute_array_fix_nan_permutation (arr : list float64)
  (rng : rng_state) :
  Permutation
    (fst (np_random_permutation rng (map Z.of_nat (scored_cells arr))))
    (map Z.of_nat (scored_cells arr)) ->
  exists new_idx : list Z,
    fst (permute_array_fix_nan np_random_permutation arr rng) = Some new_idx
    /\ Permutation new_idx (range (length arr))
    /\ (forall i : nat,
          (i < length arr)%nat ->
          isnan (observation arr (nth i new_idx 0%Z))
          = isnan (nth i arr NaN)).
Proof.
  intros Hperm.
  set (drawn :=
         fst (np_random_permutation rng (map Z.of_nat (scored_cells arr))))
    in *.
  assert (Hlen : length drawn = length (scored_cells arr)).
  { rewrite (Permutation_length Hperm). apply length_map. }
  exists (map (fix_nan_entry arr drawn) (seq 0 (length arr))).
  split; [apply permute_array_fix_nan_entries; exact Hlen|].
  assert (Hsplit :
    Permutation (seq 0 (length arr)) (scored_cells arr ++ nan_positions arr)).
  { rewrite nan_positions_complement. apply filter_partition. }
  split.
  - unfold range.
    rewrite (Permutation_map (fix_nan_entry arr drawn) Hsplit).
    rewrite (Permutation_map Z.of_nat Hsplit).
    rewrite !map_app, fix_nan_entries_defined by exact Hlen.
    rewrite fix_nan_entries_nan.
    apply Permutation_app_tail. exact Hperm.
  - intros i Hi. rewrite nth_map_seq by exact Hi.
    destruct (isnan (nth i arr NaN)) eqn:Hnan.
    + unfold fix_nan_entry. rewrite Hnan.
      rewrite observation_of_nat by exact Hi. exact Hnan.
    + assert (Hin : In i (scored_cells arr)).
      { unfold scored_cells. apply filter_In. split.
        - apply in_seq. lia.
        - unfold cell_defined. rewrite Hnan. reflexivity. }
      assert (Hdrawn : In (fix_nan_entry arr drawn i) drawn).
      { pose proof (fix_nan_entries_defined arr drawn Hlen) as Hmap.
        rewrite <- Hmap at 2. apply in_map. exact Hin. }
      apply (Permutation_in _ Hperm) in Hdrawn.
      apply in_map_iff in Hdrawn. destruct Hdrawn as [i' [Heq Hi']].
      rewrite <- Heq. unfold scored_cells in Hi'.
      apply filter_In in Hi'. destruct Hi' as [Hrange Hdef].
      apply in_seq in Hrange.
      rewrite observation_of_nat by lia.
      unfold cell_defined in Hdef. apply negb_true_iff in Hdef. exact Hdef.
Qed.

End FixNanFacts.

(** ** Properties of the score of one observation *)

Section ScoreFacts.

Variable binom : float64 -> float64 -> float64.

Open Scope R_scope.

Lemma fsub_swap (a b : float64) : fsub b a = fneg (fsub a b).
Proof.
  destruct a as [x| | |], b as [y| | |]; cbn; try reflexivity.
  f_equal. ring.
Qed.

Lemma isnan_fneg (a : float64) : isnan (fneg a) = isnan a.
Proof. destruct a; reflexivity. Qed.

Lemma floored_log_ratio_swap (min_probability p q : float64) :
  floored_log_ratio min_probability q p
  = fneg (floored_log_ratio min_probability p q).
Proof.
  unfold floored_log_ratio. cbv zeta.
  rewrite (fsub_swap (flog (np_max2 min_probability p))
                     (flog (np_max2 min_probability q))).
  rewrite isnan_fneg.
  rewrite (orb_comm (isnan (flog (np_max2 min_probability q)))).
  destruct (isnan (flog (np_max2 min_probability p))
            || isnan (flog (np_max2 min_probability q))
            || isnan (fsub (flog (np_max2 min_probability p))
                           (flog (np_max2 min_probability q)))).
  - cbn. f_equal. ring.
  - reflexivity.
Qed.

(** X3.  A reference estimate that gives the same model probability as the
    global estimate scores exactly 0; in particular a neighbourhood estimate
    equal to the global estimate does, whenever the model returns. *)
Theorem psi_observation_score_neutral
  (o a g : float64) (r : Z) (c min_probability p : float64) :
  probability_psi_observation binom o a c r = Some p ->
  probability_psi_observation binom o g c r = Some p ->
  psi_observation_score binom o a g r c min_probability = Some (Fin 0)
  /\ psi_observation_score binom o a a r c min_probability = Some (Fin 0).
Proof.
  intros Ha Hg. split.
  - rewrite psi_observation_score_eq.
    destruct (isnan o); [reflexivity|].
    rewrite Ha, Hg. cbn [bind]. rewrite floored_log_ratio_same.
    reflexivity.
  - eapply score_same_reference. exact Ha.
Qed.

(** X4.  Exchanging the neighbourhood estimate and the global estimate
    negates the score (and the call raises in the one order exactly when it
    raises in the other). *)
Theorem psi_observation_score_antisymmetric
  (o a g : float64) (r : Z) (c min_probability : float64) :
  psi_observation_score binom o g a r c min_probability
  = match psi_observation_score binom o a g r c min_probability with
    | Some s => Some (fneg s)
    | None => None
    end.
Proof.
  rewrite !psi_observation_score_eq.
  destruct (isnan o).
  - cbn. do 2 f_equal. ring.
  - destruct (probability_psi_observation binom o a c r) as [p_a|];
      destruct (probability_psi_observation binom o g c r) as [p_g|];
      cbn [bind]; try reflexivity.
    f_equal. apply floored_log_ratio_swap.
Qed.

Lemma ln_le_compat (x y : R) : 0 < x -> x <= y -> ln x <= ln y.
Proof.
  intros Hx [Hlt | ->].
  - left. apply ln_increasing; assumption.
  - right. reflexivity.
Qed.

(** The logarithm of a floored probability that is not above 1 lies between
    [log min_probability] and 0, or is [nan]. *)
Lemma floored_log_range (mp : R) (p : float64) :
  0 < mp <= 1 -> at_most_one p ->
  flog (np_max2 (Fin mp) p) = NaN
  \/ exists l : R, flog (np_max2 (Fin mp) p) = Fin l /\ ln mp <= l <= 0.
Proof.
  intros Hmp Hp. unfold np_max2.
  destruct p as [v| | |]; cbn [isnan orb flt]; cbn in Hp.
  - right. unfold Rltb. destruct (Rlt_dec mp v) as [Hlt | Hge].
    + exists (ln v). cbn [flog]. rewrite Rltb_true by lra.
      split; [reflexivity|]. split.
      * apply ln_le_compat; lra.
      * rewrite <- ln_1. apply ln_le_compat; lra.
    + exists (ln mp). cbn [flog]. rewrite Rltb_true by lra.
      split; [reflexivity|]. split; [lra|].
      rewrite <- ln_1. apply ln_le_compat; lra.
  - contradiction.
  - right. exists (ln mp). cbn [flog]. rewrite Rltb_true by lra.
    split; [reflexivity|]. split; [lra|].
    rewrite <- ln_1. apply ln_le_compat; lra.
  - left. reflexivity.
Qed.

Lemma floored_log_ratio_bounded (mp : R) (p q : float64) :
  0 < mp <= 1 -> at_most_one p -> at_most_one q ->
  exists s : R,
    floored_log_ratio (Fin mp) p q = Fin s /\ ln mp <= s <= - ln mp.
Proof.
  intros Hmp Hp Hq.
  assert (Hneg : ln mp <= 0).
  { rewrite <- ln_1. apply ln_le_compat; lra. }
  unfold floored_log_ratio. cbv zeta.
  destruct (floored_log_range p Hmp Hp) as [-> | [l1 [-> Hl1]]].
  { exists 0. cbn. split; [reflexivity | lra]. }
  destruct (floored_log_range q Hmp Hq) as [-> | [l2 [-> Hl2]]].
  { exists 0. cbn. split; [reflexivity | lra]. }
  exists (l1 + - l2). cbn. split; [reflexivity | lra].
Qed.

(** X5.  With a floor [0 < min_probability <= 1], a score computed from
    model probabilities that are not above 1 is a finite number of magnitude
    at most [-log min_probability]. *)
Theorem psi_observation_score_bounded
  (o a g : float64) (r : Z) (c : float64) (mp : R) (p_n p_g : float64) :
  0 < mp <= 1 ->
  probability_psi_observation binom o a c r = Some p_n ->
  probability_psi_observation binom o g c r = Some p_g ->
  at_most_one p_n -> at_most_one p_g ->
  exists s : R,
    psi_observation_score binom o a g r c (Fin mp) = Some (Fin s)
    /\ Rabs s <= - ln mp.
Proof.
  intros Hmp Hn Hg Hpn Hpg.
  rewrite psi_observation_score_eq, Hn, Hg. cbn [bind].
  assert (Hneg : ln mp <= 0).
  { rewrite <- ln_1. apply ln_le_compat; lra. }
  destruct (isnan o).
  - exists 0. split; [reflexivity|]. rewrite Rabs_R0. lra.
  - destruct (@floored_log_ratio_bounded mp p_n p_g Hmp Hpn Hpg)
      as [s [-> Hs]].
    exists s. split; [reflexivity|].
    apply Rabs_le. lra.
Qed.

Lemma mapM_Forall {A B : Type} (f : A -> option B) (P : B -> Prop) :
  (forall a b, f a = Some b -> P b) ->
  forall (l : list A) (bs : list B), mapM f l = Some bs -> Forall P bs.
Proof.
  intros Hf. induction l as [| x l IH]; intros bs H; cbn [mapM] in H.
  - injection H as <-. constructor.
  - destruct (f x) as [b|] eqn:Hb; [|discriminate]. cbn [bind] in H.
    destruct (mapM f l) as [bs'|]; [|discriminate]. cbn [bind] in H.
    injection H as <-. constructor; [eapply Hf; exact Hb | apply IH].
    reflexivity.
Qed.

Lemma psi_observation_score_not_nan
  (o a g : float64) (r : Z) (c min_probability s : float64) :
  psi_observation_score binom o a g r c min_probability = Some s ->
  isnan s = false.
Proof.
  rewrite psi_observation_score_eq. destruct (isnan o).
  - intros H. injection H as <-. reflexivity.
  - destruct (probability_psi_observation binom o a c r) as [p_n|];
      [|discriminate].
    destruct (probability_psi_observation binom o g c r) as [p_g|];
      [|discriminate].
    cbn [bind]. intros H. injection H as <-.
    apply floored_log_ratio_not_nan.
Qed.

(** X6.  When the vectorised scorer returns, it returns one score per
    observation and none of the scores is [nan]; on empty arrays it
    raises. *)
Theorem psi_observations_scores_vec_no_nan
  (o a : list float64) (g : float64) (r : list Z)
  (c min_probability : float64) (L_vec : list float64) :
  psi_observations_scores_vec binom o a g r c min_probability = Some L_vec ->
  length L_vec = length o
  /\ Forall (fun s => isnan s = false) L_vec
  /\ o <> [].
Proof.
  unfold psi_observations_scores_vec. cbv zeta.
  destruct (seq 0 (length o)) as [| i0 rest] eqn:Hseq; [discriminate|].
  rewrite <- Hseq. intros H. split; [|split].
  - rewrite (mapM_length _ _ H). apply length_seq.
  - revert H. apply mapM_Forall. intros i s Hs.
    destruct (nth_error o i) as [o_i|]; [|discriminate]. cbn [bind] in Hs.
    destruct (nth_error (map clamp_psi a) i) as [a_i|]; [|discriminate].
    cbn [bind] in Hs.
    destruct (nth_error r i) as [r_i|]; [|discriminate]. cbn [bind] in Hs.
    apply psi_observation_score_not_nan in Hs. exact Hs.
  - intros ->. discriminate.
Qed.

End ScoreFacts.

(** ** Properties of the smoother's output *)

Section SmootherFacts.

Open Scope R_scope.

(** X7.  When [get_arrays] returns, the observations it returns are the
    input observations that are not [nan], in their order, and the
    neighbourhood estimates and the molecule estimates are aligned with
    them. *)
Theorem get_arrays_drops_missing (psi mrna : list float64)
  (cell_metric : metric) (o a m : list float64) :
  get_arrays psi mrna cell_metric = Some (o, a, m) ->
  o = filter (fun x => negb (isnan x)) psi
  /\ Forall (fun x => isnan x = false) o
  /\ length a = length o
  /\ length m = length o.
Proof.
  intros H. pose proof (get_arrays_returns _ _ _ H) as [Ho [Ha Hm]].
  assert (Hfilter : o = filter (fun x => negb (isnan x)) psi).
  { rewrite Ho. apply scored_cells_observations. }
  split; [exact Hfilter|]. split.
  - rewrite Hfilter. apply Forall_forall. intros x Hx.
    apply filter_In in Hx. destruct Hx as [_ Hx].
    destruct (isnan x); [discriminate | reflexivity].
  - rewrite Ho, Ha, Hm, !length_map. split; reflexivity.
Qed.

Lemma observation_ratio_ok (psi : list float64) (n : Z) :
  Forall ratio_ok psi -> ratio_ok (observation psi n).
Proof.
  intros Hpsi. unfold observation.
  destruct (py_index psi n) as [x|] eqn:Hx; [|exact I].
  unfold py_index in Hx. rewrite Forall_forall in Hpsi. apply Hpsi.
  destruct (0 <=? n)%Z.
  - eapply nth_error_In. exact Hx.
  - destruct (- Z.of_nat (length psi) <=? n)%Z; [|discriminate].
    eapply nth_error_In. exact Hx.
Qed.

(** The running sums of the inner loop, over contributions that are a ratio
    paired with a non-negative weight. *)
Lemma weighted_sums_bounded (used : list (float64 * float64)) :
  Forall (fun pw => isnan (fst pw) = false /\ ratio_ok (fst pw)
                    /\ weight_ok (snd pw)) used ->
  forall s0 w0 : R,
  exists s w : R,
    fold_left fadd (map (fun pw => fmul (fst pw) (snd pw)) used) (Fin s0)
    = Fin s
    /\ fold_left fadd (map snd used) (Fin w0) = Fin w
    /\ 0 <= s - s0 <= w - w0.
Proof.
  induction 1 as [| [p w1] used [Hnan [Hp Hw]] _ IH]; intros s0 w0.
  - exists s0, w0. cbn. repeat split; lra.
  - cbn [fst snd] in Hnan, Hp, Hw.
    destruct p as [pv| | |]; cbn in Hp; try contradiction;
      [|discriminate].
    destruct w1 as [wv| | |]; cbn in Hw; try contradiction.
    cbn [map fold_left fst snd fmul fadd].
    destruct (IH (s0 + pv * wv) (w0 + wv)) as [s [w [Hs [Hw' Hb]]]].
    exists s, w. split; [exact Hs|]. split; [exact Hw'|]. nra.
Qed.

Lemma neighborhood_estimate_ratio_ok (psi : list float64)
  (neighbors : list Z) (weights : list float64) :
  Forall ratio_ok psi -> Forall weight_ok weights ->
  ratio_ok (neighborhood_estimate psi neighbors weights).
Proof.
  intros Hpsi Hw. unfold neighborhood_estimate. cbv zeta.
  assert (Hused : Forall (fun pw => isnan (fst pw) = false
                                    /\ ratio_ok (fst pw)
                                    /\ weight_ok (snd pw))
                         (contributions psi neighbors weights)).
  { apply Forall_forall. intros [p w] Hin. unfold contributions in Hin.
    apply filter_In in Hin. destruct Hin as [Hin Hnan]. cbn [fst] in Hnan.
    cbn [fst snd]. split.
    { destruct (isnan p); [discriminate | reflexivity]. }
    pose proof (in_combine_l _ _ _ _ Hin) as Hp.
    pose proof (in_combine_r _ _ _ _ Hin) as Hw'.
    apply in_map_iff in Hp. destruct Hp as [n [<- _]]. split.
    - apply observation_ratio_ok. exact Hpsi.
    - rewrite Forall_forall in Hw. apply Hw.
      destruct weights as [| w0 ws]; [contradiction|]. right. exact Hw'. }
  destruct (weighted_sums_bounded Hused 0 0) as [s [w [Hs [Hw' Hb]]]].
  unfold np_sum. rewrite Hs, Hw'. unfold fgt. cbn [flt].
  unfold Rltb. destruct (Rlt_dec 0 w) as [Hpos | Hneg]; [|exact I].
  cbn [fdiv]. rewrite Reqb_false by lra. cbn [ratio_ok].
  split.
  - apply Rmult_le_reg_r with w; [exact Hpos|].
    unfold Rdiv. rewrite Rmult_assoc, Rinv_l by lra. lra.
  - apply Rmult_le_reg_r with w; [exact Hpos|].
    unfold Rdiv. rewrite Rmult_assoc, Rinv_l by lra. lra.
Qed.

(** X8.  When every observation is a ratio in [0, 1] or [nan] and every
    weight is a non-negative number, every neighbourhood estimate that
    [get_arrays] returns is a ratio in [0, 1] or [nan]. *)
Theorem get_arrays_estimates_are_ratios (psi mrna : list float64)
  (cell_metric : metric) (o a m : list float64) :
  Forall ratio_ok psi ->
  Forall (Forall weight_ok) (snd cell_metric) ->
  get_arrays psi mrna cell_metric = Some (o, a, m) ->
  Forall ratio_ok a.
Proof.
  intros Hpsi Hw H. apply get_arrays_returns in H. destruct H as [_ [-> _]].
  apply Forall_forall. intros x Hx. apply in_map_iff in Hx.
  destruct Hx as [i [<- _]]. unfold cell_estimate.
  apply neighborhood_estimate_ratio_ok; [exact Hpsi|].
  destruct (nth_in_or_default i (snd cell_metric) []) as [Hin | ->].
  - rewrite Forall_forall in Hw. apply Hw. exact Hin.
  - constructor.
Qed.

Lemma Rround_half_even_bounds (x : R) (lo hi : Z) :
  IZR lo <= x <= IZR hi -> (lo <= Rround_half_even x <= hi)%Z.
Proof.
  intros [Hlo Hhi]. unfold Rround_half_even. cbv zeta.
  destruct (base_Int_part x) as [Hf1 Hf2].
  remember (Int_part x) as f eqn:Heqf. clear Heqf.
  assert (Hfl : (lo - 1 < f)%Z).
  { apply lt_IZR. rewrite minus_IZR. lra. }
  assert (Hfh : (f <= hi)%Z).
  { apply le_IZR. lra. }
  unfold Rltb. destruct (Rlt_dec (x - IZR f) (1 / 2)) as [Hd | Hd]; [lia|].
  assert (Hlt : (f < hi)%Z).
  { apply lt_IZR. lra. }
  destruct (Rlt_dec (1 / 2) (x - IZR f)); [lia|].
  destruct (Z.even f); lia.
Qed.

Lemma Rround_half_even_zero (x : R) :
  Rround_half_even x = 0%Z <-> - (1 / 2) <= x <= 1 / 2.
Proof.
  unfold Rround_half_even. cbv zeta.
  destruct (base_Int_part x) as [Hf1 Hf2].
  remember (Int_part x) as f eqn:Heqf. clear Heqf.
  unfold Rltb.
  destruct (Rlt_dec (x - IZR f) (1 / 2)) as [Hd | Hd];
    [| destruct (Rlt_dec (1 / 2) (x - IZR f)) as [Hd' | Hd'];
       [| destruct (Z.even f) eqn:Heven]].
  - split.
    + intros ->. lra.
    + intros [Hlo Hhi].
      assert (H1 : (-2 < f)%Z) by (apply lt_IZR; lra).
      assert (H2 : (f < 1)%Z) by (apply lt_IZR; lra).
      assert (Hcases : f = (-1)%Z \/ f = 0%Z) by lia.
      destruct Hcases as [-> | ->]; [lra | reflexivity].
  - split.
    + intros Hf. assert (Hf' : f = (-1)%Z) by lia. subst f. lra.
    + intros [Hlo Hhi].
      assert (H1 : (-2 < f)%Z) by (apply lt_IZR; lra).
      assert (H2 : (f < 1)%Z) by (apply lt_IZR; lra).
      assert (Hcases : f = (-1)%Z \/ f = 0%Z) by lia.
      destruct Hcases as [-> | ->]; [reflexivity | lra].
  - split.
    + intros ->. lra.
    + intros [Hlo Hhi].
      assert (H1 : (-2 < f)%Z) by (apply lt_IZR; lra).
      assert (H2 : (f < 1)%Z) by (apply lt_IZR; lra).
      assert (Hcases : f = (-1)%Z \/ f = 0%Z) by lia.
      destruct Hcases as [-> | ->]; [discriminate | reflexivity].
  - split.
    + intros Hf. assert (Hf' : f = (-1)%Z) by lia. subst f. lra.
    + intros [Hlo Hhi].
      assert (H1 : (-2 < f)%Z) by (apply lt_IZR; lra).
      assert (H2 : (f < 1)%Z) by (apply lt_IZR; lra).
      assert (Hcases : f = (-1)%Z \/ f = 0%Z) by lia.
      destruct Hcases as [-> | ->]; [reflexivity | discriminate].
Qed.

Lemma zero_count_threshold_finite (x : R) :
  round_mrna (collapse_mrna (Fin x)) = 0%Z <-> - (1 / 2) <= x <= 1 / 10.
Proof.
  unfold round_mrna, collapse_mrna, fgt. cbn [flt fle].
  unfold Rltb, Rleb.
  destruct (Rlt_dec (1 / 10) x) as [Hgt | Hle];
    [destruct (Rle_dec x 1) as [Hle1 | Hgt1] |]; cbn [andb].
  - change (Fin 1) with (Fin (IZR 1)).
    rewrite astype_int_np_round_zero, Rround_half_even_IZR.
    split; [discriminate | lra].
  - rewrite astype_int_np_round_zero.
    pose proof (@Rround_half_even_zero x) as Hz.
    split; [intros H; apply Hz in H; lra | lra].
  - rewrite astype_int_np_round_zero.
    pose proof (@Rround_half_even_zero x) as Hz.
    split; [intros H; apply Hz in H; lra | intros H; apply Hz; lra].
Qed.

(** X9.  A raw molecule estimate is collapsed and rounded to the count 0,
    and its cell left out of the number of scored cells, exactly when it is
    a finite number in [-1/2, 1/10]: estimates in (1/10, 1/2] count as one
    molecule although they would round to 0, and [nan] and the infinities
    never count as 0. *)
Theorem zero_count_threshold (x : float64) :
  round_mrna (collapse_mrna x) = 0%Z
  <-> match x with
      | Fin v => - (1 / 2) <= v <= 1 / 10
      | _ => False
      end.
Proof.
  destruct x as [v| | |].
  - apply zero_count_threshold_finite.
  - split; [discriminate | contradiction].
  - split; [discriminate | contradiction].
  - split; [discriminate | contradiction].
Qed.

End SmootherFacts.

(** ** Error and edge behaviour of the driver *)

Section DriverFacts.

Variable binom : float64 -> float64 -> float64.
Variable rng_state : Type.
Variable np_random_seed : Z -> rng_state.
Variable shuffle : rng_state -> list Z -> list Z * rng_state.

Open Scope R_scope.

(** On an array of missing observations the outer loop of [get_arrays]
    reads neither the molecule estimates nor the graph. *)
Lemma cell_loop_all_missing (psi mrna : list float64) (cell_metric : metric) :
  Forall (fun x => isnan x = true) psi ->
  forall (n k : nat) (acc : list float64 * list float64 * list float64),
    (k + n <= length psi)%nat ->
    foldM (cell_step psi mrna cell_metric) (seq k n) acc = Some acc.
Proof.
  intros Hnan. induction n as [| n IH]; intros k acc Hk; [reflexivity|].
  cbn [seq foldM]. destruct acc as [[o a] m]. unfold cell_step at 1.
  destruct (nth_error psi k) as [x|] eqn:Hx.
  2:{ apply nth_error_None in Hx. lia. }
  rewrite Forall_forall in Hnan.
  pose proof (Hnan x (nth_error_In _ _ Hx)) as Hxnan.
  cbv beta iota zeta delta [bind]. rewrite Hxnan.
  cbn [negb]. apply IH. lia.
Qed.

Lemma get_arrays_all_missing (psi mrna : list float64)
  (cell_metric : metric) :
  Forall (fun x => isnan x = true) psi ->
  get_arrays psi mrna cell_metric = Some ([], [], []).
Proof.
  intros Hnan. unfold get_arrays.
  rewrite (cell_loop_all_missing mrna cell_metric Hnan) by lia.
  reflexivity.
Qed.

(** X10.  Without permutation, an exon whose observations are all [nan]
    (or that has no cell at all) gets the score [nan]: the call does not
    raise, whatever the molecule estimates, the graph and the tables are,
    and it leaves the generator untouched. *)
Theorem psix_score_all_missing
  (psi mrna : list float64) (cell_metric : metric)
  (c min_probability : float64) (seed : Z) (turbo : option (list table))
  (rng : rng_state) :
  Forall (fun x => isnan x = true) psi ->
  psix_score binom np_random_seed shuffle psi mrna cell_metric c false
             min_probability seed turbo rng
  = (Some NaN, rng).
Proof.
  intros Hnan. unfold psix_score.
  cbv beta iota zeta delta [bind].
  rewrite (get_arrays_all_missing mrna cell_metric Hnan).
  reflexivity.
Qed.


Lemma well_formed_by_length (psi mrna psi' mrna' : list float64)
  (cell_metric : metric) :
  length psi' = length psi -> (length psi <= length mrna')%nat ->
  well_formed psi mrna cell_metric = true ->
  well_formed psi' mrna' cell_metric = true.
Proof.
  unfold well_formed. intros -> Hm Hwf.
  apply andb_true_iff in Hwf. destruct Hwf as [Hwf Hcells].
  apply andb_true_iff in Hwf. destruct Hwf as [Hwf Hlw].
  apply andb_true_iff in Hwf. destruct Hwf as [_ Hln].
  rewrite Hln, Hlw, Hcells.
  replace (length psi <=? length mrna')%nat with true; [reflexivity|].
  symmetry. apply Nat.leb_le. exact Hm.
Qed.

End DriverFacts.

(** ** Bounds of the turbo lookup *)

Section TurboFacts.

Open Scope R_scope.

Lemma py_index_In {A : Type} (l : list A) (i : Z) (x : A) :
  py_index l i = Some x -> In x l.
Proof.
  unfold py_index. cbv zeta. intros H.
  destruct (0 <=? i)%Z.
  - eapply nth_error_In. exact H.
  - destruct (- Z.of_nat (length l) <=? i)%Z; [|discriminate].
    eapply nth_error_In. exact H.
Qed.

Lemma py_index_below {A : Type} (l : list A) (i : Z) (n : nat) :
  (0 <= i < Z.of_nat n)%Z -> (n <= length l)%nat ->
  exists x, py_index l i = Some x.
Proof.
  intros Hi Hn. apply py_index_ok. unfold index_ok.
  apply andb_true_iff. split; [apply Z.leb_le | apply Z.ltb_lt]; lia.
Qed.

Lemma ratio_bin_percent (o : R) :
  0 <= o <= 1 ->
  exists i : Z, ratio_bin (Fin o) = Some i /\ (0 <= i <= 100)%Z.
Proof.
  intros Ho. unfold ratio_bin, of_int. cbn [fmul].
  rewrite np_int_np_round. eexists. split; [reflexivity|].
  apply Rround_half_even_bounds. lra.
Qed.

Lemma turbo_entry_in_range (o x : R) (r : Z) (T : list table) :
  0 <= o <= 1 ->
  (0 <= r <= Z.of_nat (length T))%Z ->
  T <> [] ->
  table_shape_ok T = true ->
  exists (p : float64) (tbl : table) (row : list float64),
    turbo_entry T r (Fin o) (Fin x) = Some p
    /\ In tbl T /\ In row tbl /\ In p row.
Proof.
  intros Ho Hr Hne Hshape. unfold turbo_entry.
  destruct (ratio_bin_percent Ho) as [i [-> Hi]]. cbn [bind].
  assert (Hj : exists j, ratio_bin (Fin x) = Some j).
  { unfold ratio_bin, of_int. cbn [fmul]. rewrite np_int_np_round.
    eexists. reflexivity. }
  destruct Hj as [j ->]. cbn [bind].
  assert (Hlen : (0 < length T)%nat).
  { destruct T; [contradiction | cbn; lia]. }
  destruct (@py_index_ok _ T (r - 1)) as [tbl Htbl].
  { unfold index_ok. apply andb_true_iff.
    split; [apply Z.leb_le | apply Z.ltb_lt]; lia. }
  rewrite Htbl. cbn [bind].
  pose proof (py_index_In _ _ Htbl) as Hin.
  unfold table_shape_ok in Hshape. rewrite forallb_forall in Hshape.
  specialize (Hshape tbl Hin). apply andb_true_iff in Hshape.
  destruct Hshape as [Hrows Hcols]. apply Nat.leb_le in Hrows.
  rewrite forallb_forall in Hcols.
  destruct (@py_index_below _ tbl i 101) as [row Hrow]; [lia | exact Hrows|].
  rewrite Hrow. cbn [bind].
  pose proof (py_index_In _ _ Hrow) as Hin_row.
  specialize (Hcols row Hin_row). apply Nat.leb_le in Hcols.
  destruct (@py_index_below _ row (clamp 0 98 (j - 1)) 99) as [p Hp];
    [unfold clamp; lia | exact Hcols|].
  exists p, tbl, row. split; [exact Hp|].
  split; [exact Hin|]. split; [exact Hin_row|].
  eapply py_index_In. exact Hp.
Qed.

(** X12.  For an observed ratio in [0, 1], any finite reference ratio and a
    molecule count between 0 and the number of tables, the lookup in a
    non-empty sequence of tables of at least 101 rows and 99 columns raises
    no [IndexError], and what it returns is an entry of one of the
    tables. *)
Theorem psix_turbo_in_range (o x : R) (r : Z) (T : list table) :
  0 <= o <= 1 ->
  (0 <= r <= Z.of_nat (length T))%Z ->
  T <> [] ->
  table_shape_ok T = true ->
  exists (p : float64) (tbl : table) (row : list float64),
    psix_turbo (Fin o) (Fin x) r T = Some p
    /\ In tbl T /\ In row tbl /\ In p row.
Proof.
  intros Ho Hr Hne Hshape. rewrite psix_turbo_entry.
  apply turbo_entry_in_range; assumption.
Qed.

(** X13.  Exchanging the neighbourhood estimate and the global estimate
    negates the turbo score of a cell, and the lookup raises in the one
    order exactly when it raises in the other. *)
Theorem L_score_turbo_antisymmetric (o a g : float64) (r : Z)
  (T : list table) :
  L_score_turbo o g a r T
  = match L_score_turbo o a g r T with
    | Some s => Some (fneg s)
    | None => None
    end.
Proof.
  unfold L_score_turbo.
  destruct (psix_turbo o a r T) as [p_a|];
    destruct (psix_turbo o g r T) as [p_g|]; cbn [bind]; try reflexivity.
  f_equal. apply fsub_swap.
Qed.

End TurboFacts.

(** ** The turbo path of the driver *)

Section TurboDriverFacts.

Variable binom : float64 -> float64 -> float64.
Variable rng_state : Type.
Variable np_random_seed : Z -> rng_state.
Variable shuffle : rng_state -> list Z -> list Z * rng_state.

Open Scope R_scope.

Lemma Rround_half_even_lower (x : R) (lo : Z) :
  IZR lo <= x -> (lo <= Rround_half_even x)%Z.
Proof.
  intros Hlo. unfold Rround_half_even. cbv zeta.
  destruct (base_Int_part x) as [Hf1 Hf2].
  remember (Int_part x) as f eqn:Heqf. clear Heqf.
  assert (Hfl : (lo - 1 < f)%Z).
  { apply lt_IZR. rewrite minus_IZR. lra. }
  destruct (Rltb (x - IZR f) (1 / 2)); [lia|].
  destruct (Rltb (1 / 2) (x - IZR f)); [lia|].
  destruct (Z.even f); lia.
Qed.








End TurboDriverFacts.

(** ** The permutation of the cells and the number of scored cells *)

Section RandomizeFacts.

Variable binom : float64 -> float64 -> float64.
Variable rng_state : Type.
Variable np_random_seed : Z -> rng_state.
Variable shuffle : rng_state -> list Z -> list Z * rng_state.

Lemma map_nth_seq_id {A : Type} (d : A) (l : list A) :
  map (fun i => nth i l d) (seq 0 (length l)) = l.
Proof.
  induction l as [| x l IH]; [reflexivity|].
  cbn [length seq map nth]. f_equal.
  rewrite <- seq_shift, map_map. exact IH.
Qed.

Lemma combine_map_same {A B C : Type} (f : A -> B) (g : A -> C)
  (l : list A) :
  combine (map f l) (map g l) = map (fun a => (f a, g a)) l.
Proof.
  induction l as [| a l IH]; [reflexivity|].
  cbn [map combine]. rewrite IH. reflexivity.
Qed.

Lemma Permutation_filter_length {A : Type} (p : A -> bool) (l l' : list A) :
  Permutation l l' -> length (filter p l) = length (filter p l').
Proof.
  induction 1 as [| x l l' _ IH | x y l | l l' l'' _ IH1 _ IH2].
  - reflexivity.
  - cbn [filter]. destruct (p x); cbn [length]; rewrite IH; reflexivity.
  - cbn [filter]. destruct (p x), (p y); reflexivity.
  - rewrite IH1. exact IH2.
Qed.

Lemma filter_filter_length {A : Type} (p q : A -> bool) (l : list A) :
  length (filter q (filter p l)) = length (filter (fun a => p a && q a) l).
Proof.
  induction l as [| a l IH]; [reflexivity|].
  cbn [filter]. destruct (p a); cbn [andb filter]; [|exact IH].
  destruct (q a); cbn [length]; rewrite IH; reflexivity.
Qed.

(** Reading an array at non-negative indices in range. *)
Lemma fancy_index_nat {A : Type} (d : A) (arr : list A) (q : list nat) :
  Forall (fun j => (j < length arr)%nat) q ->
  fancy_index arr (map Z.of_nat q) = Some (map (fun j => nth j arr d) q).
Proof.
  unfold fancy_index. induction 1 as [| j q Hj _ IH]; [reflexivity|].
  cbn [map mapM]. rewrite IH.
  unfold py_index. cbv zeta.
  replace (0 <=? Z.of_nat j)%Z with true
    by (symmetry; apply Z.leb_le; lia).
  rewrite Nat2Z.id, (nth_error_nth' arr d Hj). reflexivity.
Qed.

(** A permutation of [range n] is a list of naturals below [n]. *)
Lemma range_permutation_nat (perm : list Z) (n : nat) :
  Permutation perm (range n) ->
  exists q : list nat, perm = map Z.of_nat q /\ Permutation q (seq 0 n).
Proof.
  intros Hperm. exists (map Z.to_nat perm). split.
  - rewrite map_map. rewrite <- (map_id perm) at 1.
    apply map_ext_in. intros i Hi.
    apply (Permutation_in _ Hperm) in Hi. unfold range in Hi.
    apply in_map_iff in Hi. destruct Hi as [k [<- _]].
    rewrite Nat2Z.id. reflexivity.
  - apply (Permutation_map Z.to_nat) in Hperm.
    unfold range in Hperm. rewrite map_map in Hperm.
    rewrite (map_ext (fun x => Z.to_nat (Z.of_nat x)) (fun x => x))
      in Hperm by (intros; apply Nat2Z.id).
    rewrite map_id in Hperm. exact Hperm.
Qed.

(** The count of cells without a molecule, as a count of the pairs of an
    observation and its molecule estimate. *)
Lemma zero_molecule_count_pairs (psi mrna : list float64) :
  zero_molecule_count psi mrna
  = length (filter (fun xy => negb (isnan (fst xy))
                              && (0 =? round_mrna (collapse_mrna (snd xy)))%Z)
                   (map (fun i => (nth i psi NaN, nth i mrna NaN))
                        (seq 0 (length psi)))).
Proof.
  unfold zero_molecule_count, scored_cells, cell_defined.
  rewrite filter_filter_length, filter_map_length. reflexivity.
Qed.

Lemma permuted_counts (psi mrna : list float64) (q : list nat) :
  Permutation q (seq 0 (length psi)) ->
  let psi' := map (fun j => nth j psi NaN) q in
  let mrna' := map (fun j => nth j mrna NaN) q in
  Permutation psi' psi
  /\ total_scored_cells psi' mrna' = total_scored_cells psi mrna.
Proof.
  intros Hq psi' mrna'.
  assert (Hpsi : Permutation psi' psi).
  { subst psi'.
    apply (@Permutation_trans _ _
             (map (fun i => nth i psi NaN) (seq 0 (length psi)))).
    - apply Permutation_map. exact Hq.
    - rewrite map_nth_seq_id. apply Permutation_refl. }
  split; [exact Hpsi|].
  unfold total_scored_cells. f_equal.
  - unfold defined_count. f_equal.
    apply Permutation_filter_length. exact Hpsi.
  - rewrite !zero_molecule_count_pairs. f_equal.
    assert (Hlen : length psi' = length mrna').
    { subst psi' mrna'. rewrite !length_map. reflexivity. }
    rewrite (map_ext (fun i => (nth i psi' NaN, nth i mrna' NaN))
                     (fun i => nth i (combine psi' mrna') (NaN, NaN)))
      by (intros i; symmetry; apply combine_nth; exact Hlen).
    replace (length psi') with (length (combine psi' mrna'))
      by (rewrite length_combine; lia).
    rewrite map_nth_seq_id. subst psi' mrna'. rewrite combine_map_same.
    apply Permutation_filter_length.
    apply (Permutation_map (fun j => (nth j psi NaN, nth j mrna NaN))).
    exact Hq.
Qed.

(** X16.  When the shuffle returns a permutation of the cell indices, the
    permuted observations are a permutation of the observations and the
    number of scored cells is the one of the arrays as given; so an exon
    without a scored cell gets [nan] with [randomize] too. *)
Theorem psix_score_randomize_keeps_count
  (psi mrna : list float64) (cell_metric : metric)
  (c min_probability : float64) (seed : Z) (turbo : option (list table))
  (rng : rng_state) :
  let perm := fst (shuffle (np_random_seed seed) (range (length psi))) in
  well_formed psi mrna cell_metric = true ->
  Permutation perm (range (length psi)) ->
  exists psi' mrna' : list float64,
    fancy_index psi perm = Some psi'
    /\ fancy_index mrna perm = Some mrna'
    /\ Permutation psi' psi
    /\ total_scored_cells psi' mrna' = total_scored_cells psi mrna
    /\ ((total_scored_cells psi mrna <= 0)%Z ->
        fst (psix_score binom np_random_seed shuffle psi mrna cell_metric c
                        true min_probability seed turbo rng)
        = Some NaN).
Proof.
  intros perm Hwf Hperm.
  assert (Hlen : (length psi <= length mrna)%nat).
  { unfold well_formed in Hwf.
    apply andb_true_iff in Hwf. destruct Hwf as [Hwf _].
    apply andb_true_iff in Hwf. destruct Hwf as [Hwf _].
    apply andb_true_iff in Hwf. destruct Hwf as [Hwf _].
    apply Nat.leb_le. exact Hwf. }
  destruct (@range_permutation_nat perm (length psi) Hperm)
    as [q [Hq Hqperm]].
  assert (Hbound : Forall (fun j => (j < length psi)%nat) q).
  { apply Forall_forall. intros j Hj.
    apply (Permutation_in _ Hqperm) in Hj. apply in_seq in Hj. lia. }
  assert (Hpsi' : fancy_index psi perm
                  = Some (map (fun j => nth j psi NaN) q)).
  { rewrite Hq. apply fancy_index_nat. exact Hbound. }
  assert (Hmrna' : fancy_index mrna perm
                   = Some (map (fun j => nth j mrna NaN) q)).
  { rewrite Hq. apply fancy_index_nat.
    eapply Forall_impl; [|exact Hbound]. cbv beta. intros j Hj. lia. }
  destruct (@permuted_counts psi mrna q Hqperm) as [Hp Hcount].
  exists (map (fun j => nth j psi NaN) q), (map (fun j => nth j mrna NaN) q).
  split; [exact Hpsi'|]. split; [exact Hmrna'|].
  split; [exact Hp|]. split; [exact Hcount|].
  intros Htotal. rewrite psix_score_value.
  unfold smoother_inputs, drawn_permutation. fold perm.
  rewrite Hpsi', Hmrna'. cbn [bind fst snd].
  pose proof (Permutation_length Hqperm) as Hqlen.
  rewrite length_seq in Hqlen.
  rewrite (@get_arrays_well_formed (map (fun j => nth j psi NaN) q)
             (map (fun j => nth j mrna NaN) q) cell_metric).
  2:{ apply (@well_formed_by_length psi mrna);
        [rewrite length_map; exact Hqlen
        | rewrite length_map; lia
        | exact Hwf]. }
  cbn [bind]. rewrite Hcount.
  replace (total_scored_cells psi mrna <=? 0)%Z with true
    by (symmetry; apply Z.leb_le; exact Htotal).
  reflexivity.
Qed.

End RandomizeFacts.

(** ** The clamp of the neighbourhood estimates *)

Section ClampFacts.

Open Scope R_scope.

(** X17.  The clamp of the neighbourhood estimates keeps [nan], sends
    every other value, the infinities included, into [1/100, 99/100], and
    changes nothing when applied again. *)
Theorem clamp_psi_range (x : float64) :
  match clamp_psi x with
  | Fin v => 1 / 100 <= v <= 99 / 100 /\ isnan x = false
  | NaN => x = NaN
  | _ => False
  end
  /\ clamp_psi (clamp_psi x) = clamp_psi x.
Proof.
  assert (Hfix : forall v : R, 1 / 100 <= v <= 99 / 100 ->
                               clamp_psi (Fin v) = Fin v).
  { intros v Hv. unfold clamp_psi, fgt. cbn [flt].
    rewrite !Rltb_false by lra. reflexivity. }
  destruct x as [v| | |].
  - assert (Hcases : (clamp_psi (Fin v) = Fin (99 / 100))
                     \/ (clamp_psi (Fin v) = Fin (1 / 100))
                     \/ (clamp_psi (Fin v) = Fin v
                         /\ 1 / 100 <= v <= 99 / 100)).
    { unfold clamp_psi, fgt. cbn [flt]. unfold Rltb.
      destruct (Rlt_dec (99 / 100) v); [left; reflexivity|].
      destruct (Rlt_dec v (1 / 100)); [right; left; reflexivity|].
      right. right. split; [reflexivity | lra]. }
    destruct Hcases as [-> | [-> | [-> Hv]]].
    + split; [split; [lra | reflexivity] | apply Hfix; lra].
    + split; [split; [lra | reflexivity] | apply Hfix; lra].
    + split; [split; [lra | reflexivity] | apply Hfix; lra].
  - change (clamp_psi PInf) with (Fin (99 / 100)).
    split; [split; [lra | reflexivity] | apply Hfix; lra].
  - change (clamp_psi NInf) with (Fin (1 / 100)).
    split; [split; [lra | reflexivity] | apply Hfix; lra].
  - split; reflexivity.
Qed.

End ClampFacts.

(** ** Instances of the properties above *)

Section FurtherInstances.

Open Scope R_scope.



Lemma lonely_psi_ratios : Forall ratio_ok lonely_psi.
Proof. repeat constructor; cbn; lra. Qed.

Lemma zero_molecules_probability (z : R) :
  probability_psi_observation binom_one (Fin (1 / 2)) (Fin z) (Fin (1 / 10)) 0
  = Some (Fin 1).
Proof.
  apply (@probability_zero_molecules binom_one (1 / 2) z (1 / 10) eq_refl).
  lra.
Qed.

Lemma permute_array_fix_nan_keeps_nan_witness :
  length (fst (permutation_rev tt (map Z.of_nat (scored_cells gapped_psi))))
  = length (scored_cells gapped_psi)
  /\ exists new_idx : list Z,
       fst (permute_array_fix_nan permutation_rev gapped_psi tt)
       = Some new_idx
       /\ length new_idx = length gapped_psi.
Proof.
  split; [reflexivity|].
  destruct (@permute_array_fix_nan_keeps_nan unit permutation_rev
              gapped_psi tt eq_refl) as [new_idx [H1 [H2 _]]].
  exists new_idx. split; [exact H1 | exact H2].
Defined.

Lemma permute_array_fix_nan_permutation_witness :
  Permutation
    (fst (permutation_rev tt (map Z.of_nat (scored_cells gapped_psi))))
    (map Z.of_nat (scored_cells gapped_psi))
  /\ exists new_idx : list Z,
       fst (permute_array_fix_nan permutation_rev gapped_psi tt)
       = Some new_idx
       /\ Permutation new_idx (range (length gapped_psi)).
Proof.
  assert (H : Permutation
                (fst (permutation_rev
                        tt (map Z.of_nat (scored_cells gapped_psi))))
                (map Z.of_nat (scored_cells gapped_psi))).
  { apply Permutation_sym, Permutation_rev. }
  split; [exact H|].
  destruct (@permute_array_fix_nan_permutation unit permutation_rev
              gapped_psi tt H) as [new_idx [H1 [H2 _]]].
  exists new_idx. split; [exact H1 | exact H2].
Defined.

Lemma psi_observation_score_neutral_witness :
  probability_psi_observation binom_one (Fin (1 / 2)) (Fin (1 / 4))
                              (Fin (1 / 10)) 0 = Some (Fin 1)
  /\ probability_psi_observation binom_one (Fin (1 / 2)) (Fin (3 / 4))
                                 (Fin (1 / 10)) 0 = Some (Fin 1)
  /\ psi_observation_score binom_one (Fin (1 / 2)) (Fin (1 / 4))
                           (Fin (3 / 4)) 0 (Fin (1 / 10)) (Fin (1 / 100))
     = Some (Fin 0).
Proof.
  split; [apply zero_molecules_probability|].
  split; [apply zero_molecules_probability|].
  apply (@psi_observation_score_neutral
           binom_one (Fin (1 / 2)) (Fin (1 / 4)) (Fin (3 / 4)) 0
           (Fin (1 / 10)) (Fin (1 / 100)) (Fin 1)
           (zero_molecules_probability (1 / 4))
           (zero_molecules_probability (3 / 4))).
Defined.

Lemma psi_observation_score_bounded_witness :
  0 < 1 / 100 <= 1
  /\ at_most_one (Fin 1)
  /\ exists s : R,
       psi_observation_score binom_one (Fin (1 / 2)) (Fin (1 / 4))
                             (Fin (3 / 4)) 0 (Fin (1 / 10)) (Fin (1 / 100))
       = Some (Fin s)
       /\ Rabs s <= - ln (1 / 100).
Proof.
  assert (Hmp : 0 < 1 / 100 <= 1) by lra.
  assert (Hone : at_most_one (Fin 1)) by (cbn; lra).
  split; [exact Hmp|]. split; [exact Hone|].
  apply (@psi_observation_score_bounded
           binom_one (Fin (1 / 2)) (Fin (1 / 4)) (Fin (3 / 4)) 0
           (Fin (1 / 10)) (1 / 100) (Fin 1) (Fin 1) Hmp
           (zero_molecules_probability (1 / 4))
           (zero_molecules_probability (3 / 4)) Hone Hone).
Defined.

Lemma psi_observations_scores_vec_no_nan_witness :
  psi_observations_scores_vec binom_one [NaN; NaN] [NaN; Fin (1 / 2)]
                              (Fin (1 / 2)) [0%Z; 1%Z] (Fin (1 / 10))
                              (Fin (1 / 100))
  = Some [Fin 0; Fin 0]
  /\ Forall (fun s => isnan s = false) [Fin 0; Fin 0].
Proof.
  split; [reflexivity|].
  apply (@psi_observations_scores_vec_no_nan
           binom_one [NaN; NaN] [NaN; Fin (1 / 2)] (Fin (1 / 2))
           [0%Z; 1%Z] (Fin (1 / 10)) (Fin (1 / 100)) [Fin 0; Fin 0]
           eq_refl).
Defined.

Lemma get_arrays_drops_missing_witness :
  get_arrays gapped_psi gapped_mrna gapped_metric
  = Some (map (fun i => nth i gapped_psi NaN) (scored_cells gapped_psi),
          map (cell_estimate gapped_psi gapped_metric)
              (scored_cells gapped_psi),
          map (fun i => collapse_mrna (nth i gapped_mrna NaN))
              (scored_cells gapped_psi))
  /\ map (fun i => nth i gapped_psi NaN) (scored_cells gapped_psi)
     = filter (fun x => negb (isnan x)) gapped_psi
  /\ length (scored_cells gapped_psi) = 2%nat.
Proof.
  pose proof (@get_arrays_well_formed gapped_psi gapped_mrna gapped_metric
                eq_refl) as H.
  split; [exact H|]. split; [|reflexivity].
  apply (@get_arrays_drops_missing gapped_psi gapped_mrna gapped_metric
           _ _ _ H).
Defined.

Lemma get_arrays_estimates_are_ratios_witness :
  Forall ratio_ok lonely_psi
  /\ Forall (Forall weight_ok) (snd lonely_metric)
  /\ get_arrays lonely_psi lonely_mrna lonely_metric
     = Some ([Fin (1 / 2); Fin (1 / 2)], [NaN; Fin (1 / 2)], [Fin 0; Fin 1])
  /\ Forall ratio_ok [NaN; Fin (1 / 2)].
Proof.
  assert (Hw : Forall (Forall weight_ok) (snd lonely_metric)).
  { repeat constructor; cbn; lra. }
  split; [exact lonely_psi_ratios|]. split; [exact Hw|].
  split; [exact lonely_get_arrays|].
  apply (@get_arrays_estimates_are_ratios lonely_psi lonely_mrna
           lonely_metric [Fin (1 / 2); Fin (1 / 2)] [NaN; Fin (1 / 2)]
           [Fin 0; Fin 1] lonely_psi_ratios Hw lonely_get_arrays).
Defined.

Lemma psix_score_all_missing_witness :
  Forall (fun x => isnan x = true) [NaN; NaN]
  /\ psix_score binom_one seed_unit shuffle_id [NaN; NaN] [] ([], [])
                (Fin (1 / 10)) false (Fin (1 / 100)) 0%Z None tt
     = (Some NaN, tt).
Proof.
  assert (H : Forall (fun x => isnan x = true) [NaN; NaN]).
  { repeat constructor. }
  split; [exact H|].
  apply (@psix_score_all_missing binom_one unit seed_unit shuffle_id
           [NaN; NaN] [] ([], []) (Fin (1 / 10)) (Fin (1 / 100)) 0%Z None
           tt H).
Defined.

Lemma psix_turbo_in_range_witness :
  0 <= 1 / 2 <= 1
  /\ (0 <= 1 <= Z.of_nat (length [half_table]))%Z
  /\ [half_table] <> []
  /\ table_shape_ok [half_table] = true
  /\ exists p : float64,
       psix_turbo (Fin (1 / 2)) (Fin (1 / 4)) 1 [half_table] = Some p.
Proof.
  assert (Ho : 0 <= 1 / 2 <= 1) by lra.
  assert (Hr : (0 <= 1 <= Z.of_nat (length [half_table]))%Z)
    by (cbn; lia).
  assert (Hne : [half_table] <> []) by discriminate.
  split; [exact Ho|]. split; [exact Hr|]. split; [exact Hne|].
  split; [reflexivity|].
  destruct (@psix_turbo_in_range (1 / 2) (1 / 4) 1 [half_table]
              Ho Hr Hne eq_refl) as [p [_ [_ [Hp _]]]].
  exists p. exact Hp.
Defined.


Lemma psix_score_randomize_keeps_count_witness :
  well_formed lonely_psi lonely_mrna lonely_metric = true
  /\ Permutation
       (fst (permutation_rev (seed_unit 0) (range (length lonely_psi))))
       (range (length lonely_psi))
  /\ fst (permutation_rev (seed_unit 0) (range (length lonely_psi)))
     = [1%Z; 0%Z]
  /\ exists psi' mrna' : list float64,
       fancy_index lonely_mrna
                   (fst (permutation_rev (seed_unit 0)
                                         (range (length lonely_psi))))
       = Some mrna'
       /\ total_scored_cells psi' mrna'
          = total_scored_cells lonely_psi lonely_mrna.
Proof.
  assert (Hperm : Permutation
                    (fst (permutation_rev (seed_unit 0)
                                          (range (length lonely_psi))))
                    (range (length lonely_psi))).
  { apply Permutation_sym, Permutation_rev. }
  split; [reflexivity|]. split; [exact Hperm|]. split; [reflexivity|].
  destruct (@psix_score_randomize_keeps_count
              binom_one unit seed_unit permutation_rev lonely_psi
              lonely_mrna lonely_metric (Fin (1 / 10)) (Fin (1 / 100)) 0%Z
              None tt eq_refl Hperm)
    as [psi' [mrna' [_ [H1 [_ [H2 _]]]]]].
  exists psi', mrna'. split; [exact H1 | exact H2].
Defined.

End FurtherInstances.

(** ** The symmetry of the capture-noise model in double precision *)

Section DoublePrecision.

Import PrimFloat SpecFloat FloatOps FloatAxioms.
Local Open Scope float_scope.

Variable binom : float -> float -> float.

Lemma SFmul_comm (x y : spec_float) : SFmul prec emax x y = SFmul prec emax y x.
Proof.
  destruct x as [sx | sx | | sx mx ex], y as [sy | sy | | sy my ey];
    cbn [SFmul]; rewrite ?(xorb_comm sx sy); try reflexivity.
  rewrite (Pos.mul_comm mx my), (Z.add_comm ex ey). reflexivity.
Qed.

(** Multiplication of doubles is commutative. *)
Lemma double_mul_comm (x y : float) : x * y = y * x.
Proof.
  apply Prim2SF_inj. rewrite !mul_spec. apply SFmul_comm.
Qed.

Lemma double_regimes :
  Binary64.probability_psi_observation binom 1 Binary64.tenth
                                       Binary64.tenth 1
  = Some (Binary64.probability_psi_m_known binom 1 Binary64.tenth 1
                                           (1 / Binary64.tenth))
  /\ Binary64.probability_psi_observation binom (1 - 1)
                                          (1 - Binary64.tenth)
                                          Binary64.tenth 1
     = Binary64.probability_psi_m_unknown binom (1 - 1)
                                          (1 - Binary64.tenth)
                                          Binary64.tenth 1.
Proof. split; vm_compute; reflexivity. Qed.

(** C8.  In double precision the capture-noise model at [(1 - o, 1 - t)]
    equals the model at [(o, t)], with the same [c] and [r], whenever the
    complements are exact, that is [1 - (1 - o) = o] and [1 - (1 - t) = t]:
    then the unknown-m sum and the known-m closed form are invariant and
    the two comparisons of the branch selection are exchanged. *)
Theorem probability_psi_observation_double_symmetry (o t c : float) (r : Z) :
  1 - (1 - o) = o ->
  1 - (1 - t) = t ->
  (let M := Binary64.of_int r / c in
   (M * (1 - t) <? Binary64.of_int r * (1 - o))
   || (M * (1 - (1 - t)) <? Binary64.of_int r * (1 - (1 - o)))
   = (M * t <? Binary64.of_int r * o)
     || (M * (1 - t) <? Binary64.of_int r * (1 - o)))
  /\ Binary64.probability_psi_m_unknown binom (1 - o) (1 - t) c r
     = Binary64.probability_psi_m_unknown binom o t c r
  /\ (forall M : float,
        Binary64.probability_psi_m_known binom (1 - o) (1 - t) r M
        = Binary64.probability_psi_m_known binom o t r M)
  /\ Binary64.probability_psi_observation binom (1 - o) (1 - t) c r
     = Binary64.probability_psi_observation binom o t c r.
Proof.
  intros Ho Ht.
  assert (Hunknown :
            Binary64.probability_psi_m_unknown binom (1 - o) (1 - t) c r
            = Binary64.probability_psi_m_unknown binom o t c r).
  { unfold Binary64.probability_psi_m_unknown. rewrite Ho, Ht.
    destruct (Binary64.np_int
                (Binary64.of_int (Binary64.wrap64 (10 * r)) / c))
      as [stop|]; [|reflexivity].
    cbv beta iota zeta delta [bind]. do 2 f_equal.
    rewrite !map_combine3. apply map_ext. intros m.
    rewrite (double_mul_comm
               (Binary64.comb binom (Binary64.of_int m * (1 - t))
                              (Binary64.of_int r * (1 - o)))).
    reflexivity. }
  assert (Hknown : forall M : float,
            Binary64.probability_psi_m_known binom (1 - o) (1 - t) r M
            = Binary64.probability_psi_m_known binom o t r M).
  { intros M. unfold Binary64.probability_psi_m_known. cbv zeta.
    rewrite Ho, Ht.
    rewrite (double_mul_comm
               (Binary64.comb binom (M * (1 - t))
                              (Binary64.of_int r * (1 - o)))).
    reflexivity. }
  split; [cbv zeta; rewrite Ho, Ht; apply orb_comm|].
  split; [exact Hunknown|]. split; [exact Hknown|].
  unfold Binary64.probability_psi_observation. cbv zeta.
  rewrite Hunknown, Hknown, Ho, Ht.
  rewrite orb_comm. reflexivity.
Qed.

End DoublePrecision.

Section DoubleInstances.

Import PrimFloat.
Local Open Scope float_scope.

Lemma probability_psi_observation_double_symmetry_witness :
  1 - (1 - Binary64.quarter) = Binary64.quarter
  /\ 1 - (1 - (1 - Binary64.quarter)) = 1 - Binary64.quarter
  /\ Binary64.probability_psi_observation
       Binary64.binom_small (1 - Binary64.quarter)
       (1 - (1 - Binary64.quarter)) Binary64.tenth 1
     = Binary64.probability_psi_observation
         Binary64.binom_small Binary64.quarter (1 - Binary64.quarter)
         Binary64.tenth 1.
Proof.
  split; [reflexivity|]. split; [reflexivity|].
  apply (@probability_psi_observation_double_symmetry
           Binary64.binom_small Binary64.quarter (1 - Binary64.quarter)
           Binary64.tenth 1%Z eq_refl eq_refl).
Defined.

(** The claim of C8 for all ratios fails in double precision: with
    [c = 0.1] and [r = 1] the call at [(o, t) = (1, 0.1)] is in the known-m
    regime and returns 0.1, the call at [(1 - o, 1 - t) = (0, 0.9)] is in
    the unknown-m regime, because [1 - 0.9] is below 0.1, and returns about
    0.0697. *)
Lemma probability_psi_observation_double_counterexample :
  ~ (forall (binom : float -> float -> float) (o t c : float) (r : Z),
       Binary64.probability_psi_observation binom o t c r
       = Binary64.probability_psi_observation binom (1 - o) (1 - t) c r).
Proof.
  intros H.
  specialize (H Binary64.binom_small 1 Binary64.tenth Binary64.tenth 1%Z).
  apply (f_equal (fun x : option float =>
                    match x with
                    | Some p => p <? Binary64.seven_hundredths
                    | None => false
                    end)) in H.
  vm_compute in H. discriminate H.
Qed.

End DoubleInstances.
